(** * aiotaskqueue: the asynchronous worker

    A shallow embedding of [aiotaskqueue/worker.py]: the intake loop of
    [AsyncWorker.run], the executor loop [AsyncWorker._worker], the
    dependency injection of [_call_task_fn], the shutdown sequence of
    [_shutdown_tasks] and the dispatch channel created by [run].

    Coroutines are modelled by explicit state passing.  Every function
    returns the trace of the observable operations it performed (calls
    to the broker, the channel, the result backend and the hooks)
    together with its resulting state.  What the collaborators answer
    (what a read returns, whether a call raises, when the stop signal
    arrives) is an input of the model. *)

From Stdlib Require Import ZArith List String Bool Lia.
From stdpp Require Import gmap strings list fin_maps.

Open Scope string_scope.
Open Scope Z_scope.
Open Scope list_scope.

(** ** Data model *)

(** [TaskRecord]: the decoded wire message.  The source reads the fields
    [id], [task_name] and [requeue_count]; [id] is spelled [task_id]
    here because [id] is the identity function of the standard library. *)
Record TaskRecord := {
  task_id : string;
  task_name : string;
  requeue_count : Z;
}.

(** [BrokerTask]: a [TaskRecord] and the broker's delivery token. *)
Record BrokerTask := {
  task : TaskRecord;
  delivery_token : nat;
}.

#[global] Instance TaskRecord_eq_dec : EqDecision TaskRecord.
Proof. solve_decision. Defined.

#[global] Instance BrokerTask_eq_dec : EqDecision BrokerTask.
Proof. solve_decision. Defined.

(** Python values that flow through a task call.  [VObj oid] is a
    reference to the object whose identity is [oid]. *)
Inductive pyvalue :=
| VNone
| VInt (z : Z)
| VStr (s : string)
| VObj (oid : nat).

#[global] Instance pyvalue_eq_dec : EqDecision pyvalue.
Proof. solve_decision. Defined.

(** Exceptions.  [CancelledError] derives from [BaseException] only, so
    an [except Exception] clause does not catch it. *)
Inductive exn :=
| KeyError (key : string)
| ValueError
| TimeoutError
| RuntimeError (msg : string)
| CancelledError.

#[global] Instance exn_eq_dec : EqDecision exn.
Proof. solve_decision. Defined.

Definition is_Exception (e : exn) : bool :=
  match e with
  | CancelledError => false
  | _ => true
  end.

(** The outcome of fallible code. *)
Inductive result (A : Type) :=
| Ok (a : A)
| Raise (e : exn).
Arguments Ok {A} a.
Arguments Raise {A} e.

(** The annotation object of a parameter, as [inspect.signature] reports
    it: the class [ExecutionContext], another class, the text of a
    postponed annotation, or [Parameter.empty]. *)
Inductive annotation :=
| AnnExecutionContext
| AnnClass (name : string)
| AnnText (text : string)
| AnnEmpty.

#[global] Instance annotation_eq_dec : EqDecision annotation.
Proof. solve_decision. Defined.

(** What [inspect.signature] gives for a task function: its parameters
    in declaration order, each with its annotation.  The names of the
    parameters of one signature are distinct. *)
Record Function := {
  func_name : string;
  parameters : list (string * annotation);
}.

Record TaskDefinition := {
  name : string;
  func : Function;
}.

#[global] Instance Function_eq_dec : EqDecision Function.
Proof. solve_decision. Defined.

#[global] Instance TaskDefinition_eq_dec : EqDecision TaskDefinition.
Proof. solve_decision. Defined.

(** Extensions are filtered by capability with [isinstance]. *)
Record Extension := {
  ext_name : string;
  is_OnTaskException : bool;
  is_OnTaskCompletion : bool;
  is_OnTaskExecution : bool;
}.

#[global] Instance Extension_eq_dec : EqDecision Extension.
Proof. solve_decision. Defined.

Record TaskConfiguration := {
  max_delivery_attempts : Z;
  shutdown_deadline : Z;
  healthcheck_interval : Z;
}.

Record Configuration := {
  task_config : TaskConfiguration;
  extensions : list Extension;
}.

(** [ExecutionContext] is a frozen dataclass; [ctx_oid] is the identity
    of the instance. *)
Record ExecutionContext := {
  ctx_oid : nat;
  ctx_configuration : Configuration;
  ctx_result_backend : option nat;
  ctx_tasks : gmap string TaskDefinition;
}.

Record AsyncWorker := {
  _result_backend : option nat;
  _tasks : gmap string TaskDefinition;
  _configuration : Configuration;
  _concurrency : nat;
  _execution_context : ExecutionContext;
  _ext_on_task_exception : list Extension;
  _ext_on_task_completion : list Extension;
  _ext_on_task_execution : list Extension;
}.

(** [AsyncWorker.__init__].  [oid] is the identity the interpreter gives
    to the [ExecutionContext] built here. *)
Definition AsyncWorker_init (oid : nat) (result_backend : option nat)
    (tasks : gmap string TaskDefinition) (configuration : Configuration)
    (concurrency : nat) : AsyncWorker :=
  {| _result_backend := result_backend;
     _tasks := tasks;
     _configuration := configuration;
     _concurrency := concurrency;
     _execution_context :=
       {| ctx_oid := oid;
          ctx_configuration := configuration;
          ctx_result_backend := result_backend;
          ctx_tasks := tasks |};
     _ext_on_task_exception :=
       List.filter is_OnTaskException (extensions configuration);
     _ext_on_task_completion :=
       List.filter is_OnTaskCompletion (extensions configuration);
     _ext_on_task_execution :=
       List.filter is_OnTaskExecution (extensions configuration) |}.

(** The background tasks that [run] tracks in its [tasks] list. *)
Inductive bg_task :=
| MaintenanceTask
| ClaimPendingTask
| WorkerTask (n : nat).

#[global] Instance bg_task_eq_dec : EqDecision bg_task.
Proof. solve_decision. Defined.

(** ** Observable operations *)

Inductive event :=
(* intake loop *)
| EvRead
| EvReadCancel
| EvAck (m : BrokerTask)
| EvSend (m : BrokerTask)
| EvSleep
| EvStop
(* executor *)
| EvInsert (key : string) (m : BrokerTask)
| EvLookup (key : string)
| EvAckEnter (m : BrokerTask)
| EvDeserialize (t : TaskRecord)
| EvInject (key : string) (v : pyvalue)
| EvCall (d : TaskDefinition) (args : list pyvalue)
    (kwargs : gmap string pyvalue)
| EvPop (key : string)
| EvOnTaskException (x : Extension) (t : TaskRecord) (e : exn)
| EvResultSet (key : string) (v : pyvalue)
| EvOnTaskCompletion (x : Extension) (t : TaskRecord) (v : pyvalue)
(* lease renewal *)
| EvHealthcheck (in_flight : gmap string BrokerTask)
(* shutdown *)
| EvCloseSend
| EvWait (deadline : option Z) (ts : list bg_task)
| EvCancel (t : bg_task).

#[global] Instance event_eq_dec : EqDecision event.
Proof. solve_decision. Defined.

(** The mutable part of [self]: the stop event and the in-flight
    registry [_active_tasks]. *)
Record WorkerState := {
  _stop_event : bool;
  _active_tasks : gmap string BrokerTask;
}.

Definition initial_state : WorkerState :=
  {| _stop_event := false; _active_tasks := ∅ |}.

(** [AsyncWorker.stop] (lines 162-163). *)
Definition stop (s : WorkerState) : WorkerState :=
  {| _stop_event := true; _active_tasks := _active_tasks s |}.

(** ** The intake loop of [AsyncWorker.run] (lines 119-140) *)

(** What happens around one message of a batch: the outcome of
    [broker.ack] (when it is called) and of [send.send], and whether
    [stop()] is called while the loop is suspended on this message. *)
Record delivery := {
  message : BrokerTask;
  ack_raises : option exn;
  send_raises : option exn;
  stop_requested : bool;
}.

(** The state of [read_task] when [asyncio.wait] returns. *)
Inductive read_outcome :=
| ReadPending
| ReadDone (batch : list delivery)
| ReadFailed (e : exn).

(** One turn of the [while True] loop as the event loop plays it. *)
Record iteration := {
  stop_during_wait : bool;
  read : read_outcome;
  stop_during_sleep : bool;
}.

Inductive loop_exit :=
| LoopBreak
| LoopRaised (e : exn)
| LoopBlocked
| LoopRunning.

Definition signal_events (b : bool) : list event :=
  if b then [EvStop] else [].

Definition signalled (b : bool) (s : WorkerState) : WorkerState :=
  if b then stop s else s.

(** Lines 131-137, for one message. *)
Definition handle_message (w : AsyncWorker) (d : delivery)
    : list event * option exn :=
  let m := message d in
  if requeue_count (task m) >=? max_delivery_attempts (task_config (_configuration w))
  then
    match ack_raises d with
    | Some e => (EvAck m :: signal_events (stop_requested d), Some e)
    | None =>
        (EvAck m :: EvSend m :: signal_events (stop_requested d), send_raises d)
    end
  else (EvSend m :: signal_events (stop_requested d), send_raises d).

(** Lines 130-137: [for message in read_task.result()]. *)
Fixpoint dispatch_batch (w : AsyncWorker) (batch : list delivery)
    (s : WorkerState) : list event * WorkerState * option exn :=
  match batch with
  | [] => ([], s, None)
  | d :: rest =>
      let '(tr, err) := handle_message w d in
      let s1 := signalled (stop_requested d) s in
      match err with
      | Some e => (tr, s1, Some e)
      | None =>
          let '(tr', s2, err') := dispatch_batch w rest s1 in
          (tr ++ tr', s2, err')
      end
  end.

(** Lines 120-140.  The recursion is on the script of iterations: an
    exhausted script leaves the loop running. *)
Fixpoint intake_loop (w : AsyncWorker) (script : list iteration)
    (s : WorkerState) : list event * WorkerState * loop_exit :=
  match script with
  | [] => ([], s, LoopRunning)
  | it :: rest =>
      let s1 := signalled (stop_during_wait it) s in
      let waited := EvRead :: signal_events (stop_during_wait it) in
      match read it with
      | ReadPending =>
          if _stop_event s1
          then (waited ++ [EvReadCancel], s1, LoopBreak)
          else (waited, s1, LoopBlocked)
      | ReadFailed e => (waited, s1, LoopRaised e)
      | ReadDone batch =>
          let '(tr, s2, err) := dispatch_batch w batch s1 in
          match err with
          | Some e => (waited ++ tr, s2, LoopRaised e)
          | None =>
              let s3 := signalled (stop_during_sleep it) s2 in
              let slept := EvSleep :: signal_events (stop_during_sleep it) in
              if _stop_event s3
              then (waited ++ tr ++ slept, s3, LoopBreak)
              else
                let '(tr', s4, ex) := intake_loop w rest s3 in
                (waited ++ tr ++ slept ++ tr', s4, ex)
          end
      end
  end.

Definition intake_trace (w : AsyncWorker) (script : list iteration)
    (s : WorkerState) : list event :=
  (intake_loop w script s).1.1.

(** A signal handler runs between two instructions of the main
    thread, so the handler of lines 88-95 can also call [stop()] where
    the loop is not suspended.  Wherever the stop event is not looked
    at before the next suspension this is the same as its arrival at
    that suspension; what remains is the window between the test of
    line 139 and the creation of the read task at line 121: the loop
    has gone through the iterations [before], the handler runs, and
    the loop goes on with the iterations [after]. *)
Definition intake_loop_interrupted (w : AsyncWorker)
    (before after : list iteration) (s : WorkerState)
    : list event * WorkerState * loop_exit :=
  let '(tr, s1, ex) := intake_loop w before s in
  match ex with
  | LoopRunning =>
      let '(tr', s2, ex') := intake_loop w after (stop s1) in
      (tr ++ EvStop :: tr', s2, ex')
  | _ => (tr, s1, ex)
  end.

(** The part of a trace that follows the first call of [stop()]. *)
Fixpoint after_stop (tr : list event) : list event :=
  match tr with
  | [] => []
  | EvStop :: rest => rest
  | _ :: rest => after_stop rest
  end.

Definition is_read (e : event) : bool :=
  match e with EvRead => true | _ => false end.

Definition is_send (e : event) : bool :=
  match e with EvSend _ => true | _ => false end.

(** No broker read and no channel send follows the first [stop()]. *)
Definition quiet_after_stop (tr : list event) : bool :=
  forallb (fun e => negb (is_read e || is_send e)) (after_stop tr).

(** The messages of the batches that a script delivers. *)
Definition batch_messages (r : read_outcome) : list BrokerTask :=
  match r with
  | ReadDone batch => map message batch
  | _ => []
  end.

(** ** Dependency injection (lines 34-44 and 208-216) *)

(** [_dependencies_to_inject]: the parameters whose annotation is one of
    [types], in declaration order. *)
Definition _dependencies_to_inject (function : Function)
    (types : list annotation) : list (string * annotation) :=
  List.filter (fun p => bool_decide (p.2 ∈ types)) (parameters function).

(** [dict.setdefault]: an existing entry is kept. *)
Definition setdefault (key : string) (v : pyvalue)
    (kwargs : gmap string pyvalue) : gmap string pyvalue :=
  match kwargs !! key with
  | Some _ => kwargs
  | None => <[key:=v]> kwargs
  end.

(** The value injected for a parameter of type [ExecutionContext]: a
    reference to [self._execution_context]. *)
Definition shared_context (w : AsyncWorker) : pyvalue :=
  VObj (ctx_oid (_execution_context w)).

(** Lines 208-216: the loop over the dependencies. *)
Fixpoint inject (w : AsyncWorker) (deps : list (string * annotation))
    (kwargs : gmap string pyvalue)
    : list event * result (gmap string pyvalue) :=
  match deps with
  | [] => ([], Ok kwargs)
  | (key, value) :: rest =>
      if decide (value = AnnExecutionContext) then
        let obj := shared_context w in
        let '(tr, r) := inject w rest (setdefault key obj kwargs) in
        (EvInject key obj :: tr, r)
      else ([], Raise ValueError)
  end.

(** ** The collaborators of the executor

    The serialization layer, the middleware stack, the hooks and the
    result backend live outside [worker.py]; the executor is
    parametrised by what they answer.  A hook and the result backend
    answer [None] when they return and [Some e] when they raise [e]. *)
Class Collaborators := {
  deserialize_task :
    TaskDefinition -> TaskRecord ->
    result (list pyvalue * gmap string pyvalue);
  middleware_call :
    list Extension -> TaskDefinition -> list pyvalue ->
    gmap string pyvalue -> ExecutionContext -> result pyvalue;
  on_task_exception :
    Extension -> TaskRecord -> TaskDefinition -> ExecutionContext ->
    exn -> option exn;
  on_task_completion :
    Extension -> TaskRecord -> TaskDefinition -> ExecutionContext ->
    pyvalue -> option exn;
  result_backend_set : nat -> string -> pyvalue -> option exn;
}.

(** [AsyncWorker._call_task_fn] (lines 198-226). *)
Definition _call_task_fn `{Collaborators} (w : AsyncWorker)
    (t : TaskRecord) (d : TaskDefinition) : list event * result pyvalue :=
  match deserialize_task d t with
  | Raise e => ([EvDeserialize t], Raise e)
  | Ok (args, kwargs) =>
      let deps := _dependencies_to_inject (func d) [AnnExecutionContext] in
      match inject w deps kwargs with
      | (tr, Raise e) => (EvDeserialize t :: tr, Raise e)
      | (tr, Ok kwargs') =>
          (EvDeserialize t :: tr ++ [EvCall d args kwargs'],
           middleware_call (_ext_on_task_execution w) d args kwargs'
             (_execution_context w))
      end
  end.

(** Modelled from the spec: the broker's [ack_context]
    (aiotaskqueue.broker is not part of the sources at hand).  The
    scoped acknowledgment context commits an ack on normal exit and
    leaves the message unacknowledged if an exception escapes. *)
Definition ack_context {A : Type} (m : BrokerTask)
    (body : list event * result A) : list event * result A :=
  match body with
  | (tr, Ok v) => (EvAckEnter m :: tr ++ [EvAck m], Ok v)
  | (tr, Raise e) => (EvAckEnter m :: tr, Raise e)
  end.

(** ** The executor (lines 165-196) *)

(** Lines 176-182: the on-exception hooks, in registration order; a hook
    that raises ends the loop. *)
Fixpoint run_on_task_exception `{Collaborators} (w : AsyncWorker)
    (t : TaskRecord) (d : TaskDefinition) (e : exn)
    (hooks : list Extension) : list event * option exn :=
  match hooks with
  | [] => ([], None)
  | x :: rest =>
      match on_task_exception x t d (_execution_context w) e with
      | Some e' => ([EvOnTaskException x t e], Some e')
      | None =>
          let '(tr, r) := run_on_task_exception w t d e rest in
          (EvOnTaskException x t e :: tr, r)
      end
  end.

(** Lines 190-196: the on-completion hooks. *)
Fixpoint run_on_task_completion `{Collaborators} (w : AsyncWorker)
    (t : TaskRecord) (d : TaskDefinition) (v : pyvalue)
    (hooks : list Extension) : list event * option exn :=
  match hooks with
  | [] => ([], None)
  | x :: rest =>
      match on_task_completion x t d (_execution_context w) v with
      | Some e' => ([EvOnTaskCompletion x t v], Some e')
      | None =>
          let '(tr, r) := run_on_task_completion w t d v rest in
          (EvOnTaskCompletion x t v :: tr, r)
      end
  end.

(** Line 167: [self._active_tasks[broker_task.task.id] = broker_task]. *)
Definition claim (m : BrokerTask) (s : WorkerState) : WorkerState :=
  {| _stop_event := _stop_event s;
     _active_tasks := <[task_id (task m) := m]> (_active_tasks s) |}.

(** Line 185: [self._active_tasks.pop(broker_task.task.id, None)]. *)
Definition release (m : BrokerTask) (s : WorkerState) : WorkerState :=
  {| _stop_event := _stop_event s;
     _active_tasks := delete (task_id (task m)) (_active_tasks s) |}.

(** Lines 187-196: what follows the [try] statement on success.  A
    backend object is taken to be true in the test of line 187, as an
    object is that defines neither [__bool__] nor [__len__]. *)
Definition store_and_complete `{Collaborators} (w : AsyncWorker)
    (t : TaskRecord) (d : TaskDefinition) (v : pyvalue)
    : list event * option exn :=
  let completion :=
    run_on_task_completion w t d v (_ext_on_task_completion w) in
  match _result_backend w with
  | None => completion
  | Some backend =>
      match result_backend_set backend (task_id t) v with
      | Some e => ([EvResultSet (task_id t) v], Some e)
      | None => (EvResultSet (task_id t) v :: completion.1, completion.2)
      end
  end.

(** Lines 175-196: what the executor does once the [async with] block
    of lines 171-174 has finished with outcome [r].  The answer [None]
    means that the loop goes on with the next message, [Some e] that
    [e] leaves the loop. *)
Definition settle `{Collaborators} (w : AsyncWorker) (m : BrokerTask)
    (d : TaskDefinition) (r : result pyvalue) (s : WorkerState)
    : list event * WorkerState * option exn :=
  let t := task m in
  match r with
  | Raise e =>
      if is_Exception e then
        let '(tr, err) :=
          run_on_task_exception w t d e (_ext_on_task_exception w) in
        (tr ++ [EvPop (task_id t)], release m s, err)
      else ([EvPop (task_id t)], release m s, Some e)
  | Ok v =>
      let '(tr, err) := store_and_complete w t d v in
      (EvPop (task_id t) :: tr, release m s, err)
  end.

(** The body of the [async for] loop, for one received message. *)
Definition worker_body `{Collaborators} (w : AsyncWorker) (m : BrokerTask)
    (s : WorkerState) : list event * WorkerState * option exn :=
  let s1 := claim m s in
  let t := task m in
  let claimed := [EvInsert (task_id t) m; EvLookup (task_name t)] in
  match _tasks w !! task_name t with
  | None => (claimed, s1, Some (KeyError (task_name t)))
  | Some d =>
      let '(tr, r) := ack_context m (_call_task_fn w t d) in
      let '(tr', s2, err) := settle w m d r s1 in
      (claimed ++ tr ++ tr', s2, err)
  end.

(** [AsyncWorker._worker]: the loop over the messages that this
    executor receives from the channel, until the stream ends or an
    exception leaves the loop. *)
Fixpoint _worker `{Collaborators} (w : AsyncWorker) (recv : list BrokerTask)
    (s : WorkerState) : list event * WorkerState * option exn :=
  match recv with
  | [] => ([], s, None)
  | m :: rest =>
      let '(tr, s1, err) := worker_body w m s in
      match err with
      | Some e => (tr, s1, Some e)
      | None =>
          let '(tr', s2, err') := _worker w rest s1 in
          (tr ++ tr', s2, err')
      end
  end.

(** ** The executor pool

    [run] starts [_concurrency] executors on one shared registry.  An
    executor is suspended either in the receive of its [async for] or
    inside the [async with] block of lines 171-174; the other
    executors (and the lease-renewal loop) run at these points. *)
Inductive executor :=
| Receiving
| Executing (m : BrokerTask) (d : TaskDefinition)
| Exited (e : exn).

Record pool := {
  pool_state : WorkerState;
  pool_executors : list executor;
}.

(** [Claim i m]: executor [i] receives [m] and runs lines 167-169.
    [Finish i r]: the block of executor [i] finishes with outcome [r]
    and the executor runs lines 175-196. *)
Inductive action :=
| Claim (i : nat) (m : BrokerTask)
| Finish (i : nat) (r : result pyvalue).

Definition idle_pool (w : AsyncWorker) : pool :=
  {| pool_state := initial_state;
     pool_executors := replicate (_concurrency w) Receiving |}.

Definition pool_step `{Collaborators} (w : AsyncWorker) (a : action)
    (p : pool) : option pool :=
  match a with
  | Claim i m =>
      match pool_executors p !! i with
      | Some Receiving =>
          let s1 := claim m (pool_state p) in
          let next :=
            match _tasks w !! task_name (task m) with
            | None => Exited (KeyError (task_name (task m)))
            | Some d => Executing m d
            end in
          Some {| pool_state := s1;
                  pool_executors := <[i:=next]> (pool_executors p) |}
      | _ => None
      end
  | Finish i r =>
      match pool_executors p !! i with
      | Some (Executing m d) =>
          let '(_, s1, err) := settle w m d r (pool_state p) in
          let next :=
            match err with
            | None => Receiving
            | Some e => Exited e
            end in
          Some {| pool_state := s1;
                  pool_executors := <[i:=next]> (pool_executors p) |}
      | _ => None
      end
  end.

Fixpoint pool_run `{Collaborators} (w : AsyncWorker) (acts : list action)
    (p : pool) : option pool :=
  match acts with
  | [] => Some p
  | a :: rest =>
      match pool_step w a p with
      | Some p' => pool_run w rest p'
      | None => None
      end
  end.



(** ** The lease-renewal loop (lines 228-243) *)

(** One turn of [_claim_pending_tasks]: the registry as the loop finds
    it, the outcome of [tasks_healthcheck] (when it is called), and
    whether the stop event is set when [asyncio.wait] returns. *)
Record renewal_turn := {
  registry_now : gmap string BrokerTask;
  healthcheck_raises : option exn;
  stop_seen : bool;
}.

(** Lines 228-243.  [EvHealthcheck registry] is the call of
    [tasks_healthcheck] with the values of [registry]; the event holds
    the registry itself and says nothing of the order of the
    arguments. *)
Fixpoint _claim_pending_tasks (turns : list renewal_turn)
    : list event * loop_exit :=
  match turns with
  | [] => ([], LoopRunning)
  | t :: rest =>
      let renewed :=
        if decide (registry_now t = ∅) then []
        else [EvHealthcheck (registry_now t)] in
      match (if decide (registry_now t = ∅) then None
             else healthcheck_raises t) with
      | Some e => (renewed, LoopRaised e)
      | None =>
          if stop_seen t then (renewed, LoopBreak)
          else
            let '(tr, ex) := _claim_pending_tasks rest in
            (renewed ++ tr, ex)
      end
  end.

(** ** Shutdown (lines 97-118 and 142-160) *)

(** The list [tasks] that [run] hands to [_shutdown_tasks]: the broker
    maintenance task, the lease-renewal task and the executors. *)
Definition run_tasks (w : AsyncWorker) : list bg_task :=
  [MaintenanceTask; ClaimPendingTask] ++
  map WorkerTask (seq 0 (_concurrency w)).

(** [await asyncio.wait(tasks)], under [asyncio.timeout(deadline)] when
    a deadline is given, for a waiting coroutine that is not itself
    cancelled ([await_tasks] below has that third outcome).
    [asyncio.wait] raises [ValueError] on an empty collection;
    [in_time] tells whether the tasks finish before the deadline. *)
Definition asyncio_wait (deadline : option Z) (ts : list bg_task)
    (in_time : bool) : list event * option exn :=
  match ts with
  | [] => ([], Some ValueError)
  | _ :: _ =>
      ([EvWait deadline ts],
       match deadline with
       | Some _ => if in_time then None else Some TimeoutError
       | None => None
       end)
  end.

(** The [finally] clause of [_shutdown_tasks] (lines 148-160).  [body]
    is the exception, if any, with which the body of the [async with]
    statement was left; it is raised again after the clause unless the
    clause itself raises. *)
Definition _shutdown_tasks (w : AsyncWorker) (ts : list bg_task)
    (in_time : bool) (body : option exn) (s : WorkerState)
    : list event * WorkerState * option exn :=
  let deadline := shutdown_deadline (task_config (_configuration w)) in
  let '(tr1, r1) := asyncio_wait (Some deadline) ts in_time in
  let '(tr2, r2) :=
    match r1 with
    | Some TimeoutError =>
        let '(tr, r) := asyncio_wait None ts true in
        (map EvCancel ts ++ tr, r)
    | _ => ([], r1)
    end in
  ([EvStop; EvCloseSend] ++ tr1 ++ tr2, stop s,
   match r2 with
   | Some e => Some e
   | None => body
   end).

(** How an [await asyncio.wait(tasks)] ends for the coroutine that
    waits: the tasks are all done; the deadline of the enclosing
    [asyncio.timeout] passes first; or the waiting coroutine is itself
    cancelled (by the task group of line 101 when a tracked task
    fails, or from outside). *)
Inductive wait_end :=
| Completed
| Elapsed
| WaiterCancelled.

Definition await_tasks (deadline : option Z) (ts : list bg_task)
    (how : wait_end) : list event * option exn :=
  match ts with
  | [] => ([], Some ValueError)
  | _ :: _ =>
      ([EvWait deadline ts],
       match how, deadline with
       | Completed, _ => None
       | Elapsed, Some _ => Some TimeoutError
       | Elapsed, None => None
       | WaiterCancelled, _ => Some CancelledError
       end)
  end.

(** The [finally] clause of [_shutdown_tasks] (lines 148-160) with
    every way in which its waits can end: [first] for the wait of line
    156 under the deadline, [cancelled_again] for the wait of line 160.
    [_shutdown_tasks] above is the clause of a coroutine that is not
    cancelled while it waits. *)
Definition _shutdown_tasks_finally (w : AsyncWorker) (ts : list bg_task)
    (first : wait_end) (cancelled_again : bool) (body : option exn)
    (s : WorkerState) : list event * WorkerState * option exn :=
  let deadline := shutdown_deadline (task_config (_configuration w)) in
  let '(tr1, r1) := await_tasks (Some deadline) ts first in
  let '(tr2, r2) :=
    match r1 with
    | Some TimeoutError =>
        let '(tr, r) :=
          await_tasks None ts
            (if cancelled_again then WaiterCancelled else Completed) in
        (map EvCancel ts ++ tr, r)
    | _ => ([], r1)
    end in
  ([EvStop; EvCloseSend] ++ tr1 ++ tr2, stop s,
   match r2 with
   | Some e => Some e
   | None => body
   end).

(** ** The dispatch channel (line 86)

    [anyio.create_memory_object_stream] is a function of the anyio
    library; its parameter [max_buffer_size] defaults to 0.  The state
    of a stream is its buffer and the queues of the suspended receivers
    and senders.  [send] hands the item to the first waiting receiver,
    else buffers it when the buffer has room, else suspends the sender;
    [receive] first moves the item of the first suspended sender into
    the buffer, then takes the head of the buffer, else suspends the
    receiver. *)
Record MemoryObjectStreamState := {
  max_buffer_size : nat;
  buffer : list BrokerTask;
  waiting_receivers : list nat;
  waiting_senders : list BrokerTask;
}.

Definition create_memory_object_stream (size : option nat)
    : MemoryObjectStreamState :=
  {| max_buffer_size := default 0%nat size;
     buffer := [];
     waiting_receivers := [];
     waiting_senders := [] |}.

(** Line 86: [anyio.create_memory_object_stream[BrokerTask[object]]()]. *)
Definition dispatch_channel : MemoryObjectStreamState :=
  create_memory_object_stream None.

Inductive send_status :=
| Delivered (receiver : nat)
| Buffered
| SenderSuspended.

Inductive receive_status :=
| Received (item : BrokerTask)
| ReceiverSuspended.

Definition send (item : BrokerTask) (st : MemoryObjectStreamState)
    : MemoryObjectStreamState * send_status :=
  match waiting_receivers st with
  | r :: rs =>
      ({| max_buffer_size := max_buffer_size st;
          buffer := buffer st;
          waiting_receivers := rs;
          waiting_senders := waiting_senders st |}, Delivered r)
  | [] =>
      if (length (buffer st) <? max_buffer_size st)%nat then
        ({| max_buffer_size := max_buffer_size st;
            buffer := buffer st ++ [item];
            waiting_receivers := [];
            waiting_senders := waiting_senders st |}, Buffered)
      else
        ({| max_buffer_size := max_buffer_size st;
            buffer := buffer st;
            waiting_receivers := [];
            waiting_senders := waiting_senders st ++ [item] |},
         SenderSuspended)
  end.

Definition receive (r : nat) (st : MemoryObjectStreamState)
    : MemoryObjectStreamState * receive_status :=
  let '(buf, senders) :=
    match waiting_senders st with
    | item :: rest => (buffer st ++ [item], rest)
    | [] => (buffer st, [])
    end in
  match buf with
  | item :: rest =>
      ({| max_buffer_size := max_buffer_size st;
          buffer := rest;
          waiting_receivers := waiting_receivers st;
          waiting_senders := senders |}, Received item)
  | [] =>
      ({| max_buffer_size := max_buffer_size st;
          buffer := [];
          waiting_receivers := waiting_receivers st ++ [r];
          waiting_senders := senders |}, ReceiverSuspended)
  end.

Inductive channel_op :=
| OpSend (item : BrokerTask)
| OpReceive (r : nat).

Definition channel_step (op : channel_op) (st : MemoryObjectStreamState)
    : MemoryObjectStreamState :=
  match op with
  | OpSend item => (send item st).1
  | OpReceive r => (receive r st).1
  end.

Definition channel_run (ops : list channel_op)
    (st : MemoryObjectStreamState) : MemoryObjectStreamState :=
  fold_left (fun acc op => channel_step op acc) ops st.

(** ** The utilities of [_util.py] *)

Module Util.

(** The argument of [extract_tasks]: a [TaskRouter], of which the
    function reads the dictionary [tasks], or a sequence of task
    definitions. *)
Inductive tasks_argument :=
| FromRouter (router_tasks : gmap string TaskDefinition)
| FromSequence (definitions : list TaskDefinition).

(** [extract_tasks] (lines 18-25).  The map does not record the
    insertion order of the dictionary, in which [values()] lists it. *)
Definition extract_tasks (tasks : tasks_argument) : list TaskDefinition :=
  match tasks with
  | FromRouter router_tasks => (map_to_list router_tasks).*2
  | FromSequence definitions => definitions
  end.

(** Signals of the process. *)
Inductive signum :=
| SIGHUP
| SIGINT
| SIGUSR1
| SIGTERM.

#[global] Instance signum_eq_dec : EqDecision signum.
Proof. solve_decision. Defined.

(** [ShutdownManager] (lines 31-46): its callbacks and its event. *)
Record ShutdownManager := {
  _callbacks : list nat;
  event : bool;
}.

(** What a handler installed with [signal.signal] calls: [shutdown] of
    a manager (lines 36-43), or [stop] of the worker (lines 88-95 of
    [worker.py]). *)
Inductive handler :=
| CallsShutdown (manager : nat)
| CallsStop.

(** The process: the managers by identity, the stop event of the
    worker, and the handlers of [SIGTERM] and [SIGINT].  [signal.signal]
    sets the handler of the process, so the last call wins; [None]
    stands for a signal that keeps the disposition it had. *)
Record process := {
  managers : gmap nat ShutdownManager;
  stop_set : bool;
  on_sigterm : option handler;
  on_sigint : option handler;
}.

Definition handler_of (sig : signum) (p : process) : option handler :=
  match sig with
  | SIGTERM => on_sigterm p
  | SIGINT => on_sigint p
  | SIGHUP | SIGUSR1 => None
  end.

(** [ShutdownManager.__init__] (lines 32-43) for the new manager of
    identity [id]. *)
Definition ShutdownManager_init (id : nat) (p : process) : process :=
  {| managers := <[id := {| _callbacks := []; event := false |}]> (managers p);
     stop_set := stop_set p;
     on_sigterm := Some (CallsShutdown id);
     on_sigint := Some (CallsShutdown id) |}.

(** [ShutdownManager.shutdown] (lines 45-46). *)
Definition shutdown (id : nat) (p : process) : process :=
  {| managers :=
       alter (fun m => {| _callbacks := _callbacks m; event := true |})
         id (managers p);
     stop_set := stop_set p;
     on_sigterm := on_sigterm p;
     on_sigint := on_sigint p |}.

(** Lines 88-95 of [worker.py]: [run] installs handlers that call
    [self.stop()]. *)
Definition install_stop_handlers (p : process) : process :=
  {| managers := managers p;
     stop_set := stop_set p;
     on_sigterm := Some CallsStop;
     on_sigint := Some CallsStop |}.

(** The delivery of a signal runs the installed handler.  The answer
    is [None] for a signal without such a handler: what the process
    then does is not decided by this code. *)
Definition deliver (sig : signum) (p : process) : option process :=
  match handler_of sig p with
  | Some (CallsShutdown id) => Some (shutdown id p)
  | Some CallsStop =>
      Some {| managers := managers p;
              stop_set := true;
              on_sigterm := on_sigterm p;
              on_sigint := on_sigint p |}
  | None => None
  end.

Inductive process_step :=
| Construct (id : nat)
| CallShutdown (id : nat)
| RunWorker
| Deliver (sig : signum).

Definition process_do (st : process_step) (p : process) : option process :=
  match st with
  | Construct id => Some (ShutdownManager_init id p)
  | CallShutdown id => Some (shutdown id p)
  | RunWorker => Some (install_stop_handlers p)
  | Deliver sig => deliver sig p
  end.

Fixpoint process_run (steps : list process_step) (p : process)
    : option process :=
  match steps with
  | [] => Some p
  | st :: rest =>
      match process_do st p with
      | Some p' => process_run rest p'
      | None => None
      end
  end.

(** A process in which no handler has been installed yet. *)
Definition no_handlers : process :=
  {| managers := ∅; stop_set := false;
     on_sigterm := None; on_sigint := None |}.

(** The event of the manager [id], when there is such a manager. *)
Definition event_of (id : nat) (p : process) : option bool :=
  event <$> managers p !! id.

Definition constructs (id : nat) (st : process_step) : bool :=
  match st with
  | Construct id' => bool_decide (id' = id)
  | _ => false
  end.

(** [TaskManager] (lines 49-66): a set of asyncio tasks, each known by
    its identity. *)
Record TaskManager := {
  _tasks : gset nat;
}.

(** [TaskManager.__init__] (lines 50-51). *)
Definition TaskManager_init : TaskManager := {| _tasks := ∅ |}.

(** [TaskManager.add] (lines 53-55). *)
Definition add (tasks : list nat) (tm : TaskManager) : TaskManager :=
  {| _tasks := _tasks tm ∪ list_to_set tasks |}.

(** The calls that a manager makes: [asyncio.wait] on a set of tasks,
    and [cancel()] on each task of a set. *)
Inductive manager_event :=
| TmWait (waited : gset nat)
| TmCancel (cancelled : gset nat).

(** [TaskManager.wait_for_completion] (lines 57-61).  [asyncio.wait]
    returns when all the tasks it was given are done; each element of
    [arrivals] lists the tasks that other coroutines add to the manager
    during one wait (no other coroutine takes tasks out of the set).
    An exhausted list leaves the method waiting; the answer tells
    whether the method has returned. *)
Fixpoint wait_for_completion (arrivals : list (list nat)) (tm : TaskManager)
    : list manager_event * TaskManager * bool :=
  if decide (_tasks tm = ∅) then ([], tm, true)
  else
    match arrivals with
    | [] => ([TmWait (_tasks tm)], tm, false)
    | added :: rest =>
        let done := _tasks tm in
        let tm1 := add added tm in
        let '(tr, tm2, returned) :=
          wait_for_completion rest {| _tasks := _tasks tm1 ∖ done |} in
        (TmWait done :: tr, tm2, returned)
    end.

(** [TaskManager.cancel] (lines 63-66). *)
Definition cancel (arrivals : list (list nat)) (tm : TaskManager)
    : list manager_event * TaskManager * bool :=
  let '(tr, tm1, returned) := wait_for_completion arrivals tm in
  (TmCancel (_tasks tm) :: tr, tm1, returned).

Definition is_cancel_call (e : manager_event) : bool :=
  match e with TmCancel _ => true | TmWait _ => false end.

(** A wait on no task at all, on which [asyncio.wait] raises. *)
Definition is_empty_wait (e : manager_event) : bool :=
  match e with
  | TmWait waited => bool_decide (waited = ∅)
  | TmCancel _ => false
  end.

End Util.

(** ** Observations on traces and states *)

Definition is_stop (e : event) : bool :=
  match e with EvStop => true | _ => false end.

(** What can still happen in the iteration in which the stop signal
    arrives: the rest of the batch that was read is acknowledged and
    sent, the loop yields once, an outstanding read is cancelled. *)
Definition winding_down (batch : list BrokerTask) (e : event) : Prop :=
  e = EvStop ∨ e = EvSleep ∨ e = EvReadCancel ∨
  ∃ m, m ∈ batch ∧ (e = EvAck m ∨ e = EvSend m).

Definition reads (tr : list event) : nat :=
  length (List.filter is_read tr).

(** The events of [_call_task_fn]. *)
Definition is_call_step (e : event) : bool :=
  match e with
  | EvDeserialize _ | EvInject _ _ | EvCall _ _ _ => true
  | _ => false
  end.

Definition is_ack (e : event) : bool :=
  match e with EvAck _ => true | _ => false end.

(** Result storage and hook invocations. *)
Definition is_outcome (e : event) : bool :=
  match e with
  | EvResultSet _ _ | EvOnTaskCompletion _ _ _ | EvOnTaskException _ _ _ =>
      true
  | _ => false
  end.

(** The part of a trace that follows the removal from the registry. *)
Fixpoint after_pop (tr : list event) : list event :=
  match tr with
  | [] => []
  | EvPop _ :: rest => rest
  | _ :: rest => after_pop rest
  end.

(** Result storage and hooks all come before the removal. *)
Definition removal_is_last (tr : list event) : bool :=
  forallb (fun e => negb (is_outcome e)) (after_pop tr).

(** Modelled from the spec: [ResultBackend.set(task_id, value)] stores
    [value] under [task_id] (aiotaskqueue.result is not part of the
    sources at hand).  [stored tr] is the content of an initially empty
    backend after the calls of the trace [tr]. *)
Definition stored_from (acc : gmap string pyvalue) (tr : list event)
    : gmap string pyvalue :=
  fold_left
    (fun acc e =>
       match e with
       | EvResultSet key v => <[key:=v]> acc
       | _ => acc
       end) tr acc.

Definition stored (tr : list event) : gmap string pyvalue :=
  stored_from ∅ tr.

Definition is_result_set (e : event) : bool :=
  match e with EvResultSet _ _ => true | _ => false end.




Definition unbuffered (st : MemoryObjectStreamState) : Prop :=
  max_buffer_size st = 0%nat ∧ buffer st = [].

(** An acknowledgment by the intake loop is due when the redelivery
    count of the message has reached the limit. *)
Definition ack_is_due (w : AsyncWorker) (e : event) : bool :=
  match e with
  | EvAck m =>
      requeue_count (task m)
        >=? max_delivery_attempts (task_config (_configuration w))
  | _ => true
  end.

Definition exhausted (w : AsyncWorker) (d : delivery) : bool :=
  requeue_count (task (message d))
    >=? max_delivery_attempts (task_config (_configuration w)).

(** A delivery during which neither the broker nor the channel fails. *)
Definition succeeds (d : delivery) : bool :=
  bool_decide (ack_raises d = None) && bool_decide (send_raises d = None).

(** The claims of a schedule name registered tasks. *)
Definition claims_registered (w : AsyncWorker) (acts : list action) : bool :=
  forallb
    (fun a =>
       match a with
       | Claim _ m => bool_decide (is_Some (_tasks w !! task_name (task m)))
       | Finish _ _ => true
       end) acts.

(** Every entry of the registry is held by an executing executor,
    under the id of its message. *)
Definition owned (p : pool) : Prop :=
  ∀ key m,
    _active_tasks (pool_state p) !! key = Some m ->
    key = task_id (task m)
    ∧ ∃ i d, pool_executors p !! i = Some (Executing m d).



Definition is_cancel (e : event) : bool :=
  match e with EvCancel _ => true | _ => false end.

(** A send of a message below the delivery limit. *)
Definition is_send_below_limit (w : AsyncWorker) (e : event) : bool :=
  match e with
  | EvSend m =>
      negb (requeue_count (task m)
              >=? max_delivery_attempts (task_config (_configuration w)))
  | _ => false
  end.

(** The stop event is set when an iteration that reads [batch] starts,
    or [stop()] is called during that iteration. *)
Definition stop_reaches (it : iteration) (batch : list delivery)
    (s : WorkerState) : bool :=
  _stop_event s || stop_during_wait it || existsb stop_requested batch
  || stop_during_sleep it.

(** What one turn of the lease-renewal loop sends to the broker, and
    the exception with which the turn ends the loop. *)
Definition renewal (t : renewal_turn) : list event :=
  if decide (registry_now t = ∅) then [] else [EvHealthcheck (registry_now t)].

Definition renewal_fails (t : renewal_turn) : option exn :=
  if decide (registry_now t = ∅) then None else healthcheck_raises t.

(** A turn after which the lease-renewal loop goes on. *)
Definition goes_on (t : renewal_turn) : bool :=
  bool_decide (renewal_fails t = None) && negb (stop_seen t).

(** The ids of a list of messages. *)
Definition ids (ms : list BrokerTask) : list string :=
  map (fun m => task_id (task m)) ms.

(** ** A concrete worker

    The task definitions of [tests/tasks.py], two more task functions
    (one that declares an [ExecutionContext] parameter, one that
    raises), and a worker with [max_delivery_attempts = 3] and two
    executors. *)
Module Sample.

Definition noop_task : TaskDefinition :=
  {| name := "test-task";
     func := {| func_name := "noop_task"; parameters := [] |} |}.

Definition task_with_params : TaskDefinition :=
  {| name := "task-with-params";
     func := {| func_name := "task_with_params";
                parameters := [("a", AnnClass "int"); ("b", AnnClass "str")] |} |}.

Definition context_task : TaskDefinition :=
  {| name := "context-task";
     func := {| func_name := "context_task";
                parameters := [("a", AnnClass "int");
                               ("context", AnnExecutionContext)] |} |}.

Definition failing_task : TaskDefinition :=
  {| name := "failing-task";
     func := {| func_name := "failing_task"; parameters := [] |} |}.

Definition registry : gmap string TaskDefinition :=
  <["test-task" := noop_task]>
    (<["task-with-params" := task_with_params]>
      (<["context-task" := context_task]>
        (<["failing-task" := failing_task]> ∅))).

Definition on_exception_hook : Extension :=
  {| ext_name := "on-exception"; is_OnTaskException := true;
     is_OnTaskCompletion := false; is_OnTaskExecution := false |}.

Definition on_completion_hook : Extension :=
  {| ext_name := "on-completion"; is_OnTaskException := false;
     is_OnTaskCompletion := true; is_OnTaskExecution := false |}.

Definition audit_hook : Extension :=
  {| ext_name := "audit"; is_OnTaskException := true;
     is_OnTaskCompletion := true; is_OnTaskExecution := false |}.

Definition configuration : Configuration :=
  {| task_config := {| max_delivery_attempts := 3;
                       shutdown_deadline := 60;
                       healthcheck_interval := 5 |};
     extensions := [on_exception_hook; on_completion_hook; audit_hook] |}.

Definition worker : AsyncWorker :=
  AsyncWorker_init 7 (Some 0%nat) registry configuration 2.

(** Collaborators that behave: arguments are decoded from the task
    name, ["failing-task"] raises and every other task returns its
    first argument (or [None]); hooks and the result backend return. *)
Definition collaborators : Collaborators :=
  {| deserialize_task := fun d t =>
       if decide (name d = "task-with-params")
       then Ok ([], <["a" := VInt 1]> (<["b" := VStr "x"]> ∅))
       else if decide (name d = "context-task")
       then Ok ([], <["a" := VInt 1]> ∅)
       else Ok ([], ∅);
     middleware_call := fun _ d args kwargs _ =>
       if decide (name d = "failing-task")
       then Raise (RuntimeError "boom")
       else Ok (default VNone (kwargs !! "a"));
     on_task_exception := fun _ _ _ _ _ => None;
     on_task_completion := fun _ _ _ _ _ => None;
     result_backend_set := fun _ _ _ => None |}.


(** Collaborators that misbehave: the call of ["test-task"] is
    cancelled, every other call raises, and the on-exception hooks
    raise. *)
Definition hostile_collaborators : Collaborators :=
  {| deserialize_task := fun _ _ => Ok ([], ∅);
     middleware_call := fun _ d _ _ _ =>
       if decide (name d = "test-task")
       then Raise CancelledError
       else Raise (RuntimeError "boom");
     on_task_exception := fun _ _ _ _ _ => Some (RuntimeError "hook");
     on_task_completion := fun _ _ _ _ _ => None;
     result_backend_set := fun _ _ _ => None |}.

Definition message_of (ident nm : string) (count : Z) : BrokerTask :=
  {| task := {| task_id := ident; task_name := nm; requeue_count := count |};
     delivery_token := 0 |}.

Definition fresh_message : BrokerTask := message_of "t-1" "test-task" 0.
Definition exhausted_message : BrokerTask := message_of "t-2" "test-task" 3.
Definition unknown_message : BrokerTask := message_of "t-3" "no-such-task" 0.
Definition failing_message : BrokerTask := message_of "t-4" "failing-task" 0.
Definition context_message : BrokerTask := message_of "t-5" "context-task" 0.
Definition params_message : BrokerTask := message_of "t-6" "task-with-params" 0.

(** A delivery and an iteration in which nothing fails and no signal
    arrives. *)
Definition deliver (m : BrokerTask) : delivery :=
  {| message := m; ack_raises := None; send_raises := None;
     stop_requested := false |}.

Definition quiet_read (batch : list delivery) : iteration :=
  {| stop_during_wait := false; read := ReadDone batch;
     stop_during_sleep := false |}.


(** The worker of the sample without a result backend. *)
Definition worker_without_backend : AsyncWorker :=
  AsyncWorker_init 7 None registry configuration 2.

(** Collaborators whose serialization layer rejects every payload. *)
Definition undecodable_collaborators : Collaborators :=
  {| deserialize_task := fun _ _ => Raise (RuntimeError "decode");
     middleware_call := fun _ _ _ _ _ => Ok VNone;
     on_task_exception := fun _ _ _ _ _ => None;
     on_task_completion := fun _ _ _ _ _ => None;
     result_backend_set := fun _ _ _ => None |}.

(** Collaborators whose result backend fails. *)
Definition unwritable_collaborators : Collaborators :=
  {| deserialize_task := fun _ _ => Ok ([], ∅);
     middleware_call := fun _ _ _ _ _ => Ok (VInt 5);
     on_task_exception := fun _ _ _ _ _ => None;
     on_task_completion := fun _ _ _ _ _ => None;
     result_backend_set := fun _ _ _ => Some (RuntimeError "backend") |}.

(** A delivery whose send fails. *)
Definition broken_send (m : BrokerTask) : delivery :=
  {| message := m; ack_raises := None;
     send_raises := Some (RuntimeError "closed"); stop_requested := false |}.


End Sample.

(** * Properties *)

(** Membership in a list, at the head or further on. *)
Ltac here := apply elem_of_cons; by left.
Ltac there := apply elem_of_cons; by right.

(** ** The intake loop *)

Lemma after_stop_app_quiet (a b : list event) :
  existsb is_stop a = false -> after_stop (a ++ b) = after_stop b.
Proof.
  induction a as [|e a IH]; simpl; [done|].
  intros Hq. apply orb_false_iff in Hq as [He Ha].
  destruct e; simpl in *; try discriminate; auto.
Qed.

Lemma after_stop_incl (tr : list event) (e : event) :
  e ∈ after_stop tr -> e ∈ tr.
Proof.
  induction tr as [|x tr IH]; simpl; [done|].
  intros He. apply elem_of_cons. right. destruct x; auto.
Qed.

Lemma signalled_stop (b : bool) (s : WorkerState) :
  _stop_event (signalled b s) = _stop_event s || b.
Proof. destruct b; simpl; by rewrite ?orb_true_r, ?orb_false_r. Qed.

Lemma signal_events_stop (b : bool) :
  existsb is_stop (signal_events b) = b.
Proof. by destruct b. Qed.

Section Intake.

Context (w : AsyncWorker).

(** The events of one message are an ack or a send of that message, or
    the arrival of the stop signal. *)
Lemma handle_message_events (d : delivery) (e : event) :
  e ∈ (handle_message w d).1 ->
  e = EvStop ∨ e = EvAck (message d) ∨ e = EvSend (message d).
Proof.
  unfold handle_message, signal_events.
  repeat case_match; simpl; rewrite ?elem_of_cons, ?elem_of_nil; tauto.
Qed.

Lemma handle_message_stop (d : delivery) :
  existsb is_stop (handle_message w d).1 = stop_requested d.
Proof.
  unfold handle_message, signal_events.
  repeat case_match; simpl; congruence.
Qed.

Lemma dispatch_batch_events (batch : list delivery)
    (s : WorkerState) (e : event) :
  e ∈ (dispatch_batch w batch s).1.1 ->
  e = EvStop ∨ ∃ m, m ∈ map message batch ∧ (e = EvAck m ∨ e = EvSend m).
Proof.
  revert s. induction batch as [|d batch IH]; intros s; simpl.
  - by intros ?%elem_of_nil.
  - assert (Hhead : e ∈ (handle_message w d).1 ->
      e = EvStop ∨
      ∃ m, m ∈ message d :: map message batch ∧ (e = EvAck m ∨ e = EvSend m)).
    { intros He. apply handle_message_events in He as [-> | He]; [by left|].
      right. exists (message d). split; [here | done]. }
    destruct (handle_message w d) as [tr err]; simpl in Hhead.
    destruct err as [x|]; simpl; [done|].
    specialize (IH (signalled (stop_requested d) s)).
    destruct (dispatch_batch w batch _) as [[tr' s2] err']; simpl in *.
    intros [He|He]%elem_of_app; [auto|].
    destruct (IH He) as [-> | (m & Hm & Hem)]; [by left|right].
    exists m. split; [there | done].
Qed.

Lemma dispatch_batch_stop (batch : list delivery)
    (s : WorkerState) :
  _stop_event (dispatch_batch w batch s).1.2 =
  _stop_event s || existsb is_stop (dispatch_batch w batch s).1.1.
Proof.
  revert s. induction batch as [|d batch IH]; intros s; simpl.
  - by rewrite orb_false_r.
  - destruct (handle_message w d) as [tr err] eqn:Hd.
    pose proof (handle_message_stop d) as Hst. rewrite Hd in Hst.
    simpl in Hst.
    destruct err as [x|]; simpl.
    + by rewrite signalled_stop, Hst.
    + specialize (IH (signalled (stop_requested d) s)).
      destruct (dispatch_batch w batch _) as [[tr' s2] err']; simpl in *.
      rewrite IH, signalled_stop, existsb_app, Hst.
      by rewrite orb_assoc.
Qed.

(** A message whose redelivery count has reached the limit is
    acknowledged, and line 137 then sends it all the same. *)
Lemma handle_message_exhausted (d : delivery) :
  max_delivery_attempts (task_config (_configuration w))
    <= requeue_count (task (message d)) ->
  ack_raises d = None ->
  (handle_message w d).1 =
    EvAck (message d) :: EvSend (message d)
      :: signal_events (stop_requested d).
Proof.
  intros Hmax Hack. unfold handle_message.
  destruct (Z.geb_spec (requeue_count (task (message d)))
              (max_delivery_attempts (task_config (_configuration w))));
    [|lia].
  by rewrite Hack.
Qed.

Lemma winding_down_signal (batch : list BrokerTask) (b : bool) (e : event) :
  e ∈ signal_events b -> winding_down batch e.
Proof.
  destruct b; simpl; [|by intros ?%elem_of_nil].
  intros ->%list_elem_of_singleton. by left.
Qed.

Lemma winding_down_batch (batch : list delivery)
    (s : WorkerState) (e : event) :
  e ∈ (dispatch_batch w batch s).1.1 ->
  winding_down (map message batch) e.
Proof.
  intros [-> | Hm]%dispatch_batch_events; [by left|].
  by do 3 right.
Qed.

Lemma intake_loop_after_stop (script : list iteration)
    (s : WorkerState) :
  ∃ batch,
    (batch = [] ∨ ∃ it, it ∈ script ∧ batch = batch_messages (read it)) ∧
    ∀ e, e ∈ after_stop (intake_trace w script s) -> winding_down batch e.
Proof.
  unfold intake_trace.
  revert s. induction script as [|it rest IH]; intros s.
  { exists []. split; [by left|]. simpl. by intros e ?%elem_of_nil. }
  simpl. set (s1 := signalled (stop_during_wait it) s).
  destruct (read it) as [|batch|x] eqn:Hread.
  - (* the read is outstanding *)
    exists []. split; [by left|].
    destruct (_stop_event s1); simpl; intros e He%after_stop_incl.
    + apply elem_of_app in He as [He|He];
        [by eapply winding_down_signal|].
      apply list_elem_of_singleton in He as ->. by do 2 right; left.
    + by eapply winding_down_signal.
  - (* a batch was read *)
    pose proof (winding_down_batch batch s1) as Hbatch.
    pose proof (dispatch_batch_stop batch s1) as Hstop.
    destruct (dispatch_batch w batch s1) as [[tr s2] err]; simpl in *.
    assert (Hlocal : ∀ e,
      e ∈ signal_events (stop_during_wait it) ++ tr ++
          EvSleep :: signal_events (stop_during_sleep it) ->
      winding_down (map message batch) e).
    { intros e [He|[He|He]%elem_of_app]%elem_of_app.
      - by eapply winding_down_signal.
      - by apply Hbatch.
      - apply elem_of_cons in He as [-> | He]; [by right; left|].
        by eapply winding_down_signal. }
    destruct err as [x|]; simpl.
    { exists (map message batch). split.
      - right. exists it. split; [here|].
        by rewrite Hread.
      - intros e He%after_stop_incl. apply Hlocal.
        apply elem_of_app in He as [He|He]; apply elem_of_app; [by left|].
        right. apply elem_of_app. by left. }
    set (s3 := signalled (stop_during_sleep it) s2).
    destruct (_stop_event s3) eqn:Hs3; simpl.
    { exists (map message batch). split.
      - right. exists it. split; [here|].
        by rewrite Hread.
      - intros e He%after_stop_incl. by apply Hlocal. }
    (* no signal arrived in this iteration: the loop goes on *)
    destruct (IH s3) as (batch' & Hbatch' & Hafter).
    destruct (intake_loop w rest s3) as [[tr' s4] ex]; simpl in *.
    exists batch'. split.
    { destruct Hbatch' as [-> | (it' & Hin & ->)]; [by left|].
      right. exists it'. split; [there|done]. }
    subst s3 s1. rewrite signalled_stop, Hstop, signalled_stop in Hs3.
    repeat (apply orb_false_iff in Hs3 as [Hs3 ?]).
    replace (signal_events (stop_during_wait it) ++
             tr ++ EvSleep :: signal_events (stop_during_sleep it) ++ tr')
      with ((signal_events (stop_during_wait it) ++
             tr ++ EvSleep :: signal_events (stop_during_sleep it)) ++ tr')
      by (by rewrite <- !app_assoc).
    rewrite after_stop_app_quiet; [done|].
    rewrite !existsb_app. simpl. rewrite !signal_events_stop.
    repeat (apply orb_false_iff; split); done.
  - (* the read failed *)
    exists []. split; [by left|]. simpl.
    intros e He%after_stop_incl. by eapply winding_down_signal.
Qed.

Lemma reads_app (a b : list event) : reads (a ++ b) = (reads a + reads b)%nat.
Proof. unfold reads. by rewrite List.filter_app, length_app. Qed.

Lemma reads_none (tr : list event) :
  (∀ e, e ∈ tr -> is_read e = false) -> reads tr = 0%nat.
Proof.
  unfold reads. induction tr as [|x tr IH]; simpl; [done|].
  intros Hall. rewrite (Hall x) by (here).
  apply IH. intros e He. apply Hall, elem_of_cons. by right.
Qed.

Lemma winding_down_not_read (batch : list BrokerTask) (e : event) :
  winding_down batch e -> is_read e = false.
Proof. by intros [-> | [-> | [-> | (m & _ & [-> | ->])]]]. Qed.

(** With the stop event already set when the loop is entered, the loop
    runs one iteration: line 121 issues one read, and the loop is left
    at line 128 or at line 140. *)
Lemma intake_loop_stopped (script : list iteration)
    (s : WorkerState) :
  _stop_event s = true -> (reads (intake_trace w script s) <= 1)%nat.
Proof.
  unfold intake_trace. intros Hs.
  destruct script as [|it rest]; simpl; [unfold reads; simpl; lia|].
  assert (Hs1 : _stop_event (signalled (stop_during_wait it) s) = true)
    by (by rewrite signalled_stop, Hs).
  assert (Hsig : ∀ b, reads (signal_events b) = 0%nat) by (by intros []).
  destruct (read it) as [|batch|x].
  - rewrite Hs1. simpl. change (EvRead :: ?l) with ([EvRead] ++ l).
    rewrite !reads_app, Hsig. unfold reads. simpl. lia.
  - pose proof (winding_down_batch batch
                  (signalled (stop_during_wait it) s)) as Hbatch.
    pose proof (dispatch_batch_stop batch
                  (signalled (stop_during_wait it) s)) as Hstop.
    destruct (dispatch_batch w batch _) as [[tr s2] err]; simpl in *.
    assert (Htr : reads tr = 0%nat).
    { apply reads_none. intros e He.
      eapply winding_down_not_read, Hbatch, He. }
    rewrite Hs1 in Hstop. simpl in Hstop.
    destruct err as [x|]; simpl.
    + change (EvRead :: ?l) with ([EvRead] ++ l).
      rewrite !reads_app, Hsig, Htr. unfold reads. simpl. lia.
    + rewrite signalled_stop, Hstop. simpl.
      change (EvRead :: ?l) with ([EvRead] ++ l).
      change (EvSleep :: ?l) with ([EvSleep] ++ l).
      rewrite !reads_app, !Hsig, Htr. unfold reads. simpl. lia.
  - simpl. change (EvRead :: ?l) with ([EvRead] ++ l).
    rewrite !reads_app, Hsig. unfold reads. simpl. lia.
Qed.

(** A loop that has seen a call of [stop()] is not left running: it
    ends with [break], or with the exception of the broker or of the
    channel. *)
Lemma intake_loop_stop_exits (script : list iteration) (s : WorkerState) :
  existsb is_stop (intake_trace w script s) = true ->
  (intake_loop w script s).2 = LoopBreak
  ∨ ∃ e, (intake_loop w script s).2 = LoopRaised e.
Proof.
  unfold intake_trace. revert s.
  induction script as [|it rest IH]; intros s; simpl; [done|].
  destruct (read it) as [|batch|x].
  - destruct (_stop_event (signalled (stop_during_wait it) s)) eqn:Hs1;
      simpl; [by left|].
    rewrite signalled_stop in Hs1. apply orb_false_iff in Hs1 as [_ ->].
    done.
  - pose proof (dispatch_batch_stop batch
                  (signalled (stop_during_wait it) s)) as Hstop.
    destruct (dispatch_batch w batch _) as [[tr s2] err]; simpl in *.
    destruct err as [x|]; simpl; [right; by exists x|].
    destruct (_stop_event (signalled (stop_during_sleep it) s2)) eqn:Hs3;
      simpl; [by left|].
    specialize (IH (signalled (stop_during_sleep it) s2)).
    destruct (intake_loop w rest _) as [[tr' s4] ex]; simpl in *.
    rewrite signalled_stop, Hstop, signalled_stop in Hs3.
    repeat (apply orb_false_iff in Hs3 as [Hs3 ?]).
    rewrite !existsb_app. simpl. rewrite !existsb_app, !signal_events_stop.
    intros Hany. apply IH.
    repeat (apply orb_true_iff in Hany as [Hany|Hany]; try congruence).
  - right. by exists x.
Qed.

(** Every turn of the loop starts with the read of line 121. *)
Lemma intake_loop_reads_first (it : iteration) (rest : list iteration)
    (s : WorkerState) :
  head (intake_trace w (it :: rest) s) = Some EvRead.
Proof.
  unfold intake_trace. simpl.
  destruct (read it) as [|batch|x]; simpl.
  - by destruct (_stop_event _).
  - destruct (dispatch_batch w batch _) as [[tr s2] [e|]]; simpl; [done|].
    destruct (_stop_event _); simpl; [done|].
    by destruct (intake_loop w rest _) as [[tr' s4] ex].
  - done.
Qed.

Lemma reads_head (tr : list event) :
  head tr = Some EvRead -> (1 <= reads tr)%nat.
Proof.
  destruct tr as [|e tr]; simpl; [done|]. intros [= ->].
  unfold reads. simpl. lia.
Qed.

(** A batch for which neither the broker nor the channel fails is
    handled to its end: the messages below the limit are sent in the
    order of the batch, and the stop event is afterwards set when it
    was set before or a signal arrived meanwhile. *)
Lemma dispatch_batch_succeeds (batch : list delivery) (s : WorkerState) :
  forallb succeeds batch = true ->
  (dispatch_batch w batch s).2 = None
  ∧ _stop_event (dispatch_batch w batch s).1.2
    = _stop_event s || existsb stop_requested batch
  ∧ List.filter (is_send_below_limit w) (dispatch_batch w batch s).1.1
    = map EvSend
        (List.filter (fun m => is_send_below_limit w (EvSend m))
           (map message batch)).
Proof.
  revert s. induction batch as [|d batch IH]; intros s Hall; simpl in *.
  { by rewrite orb_false_r. }
  apply andb_true_iff in Hall as [Hd Hrest].
  apply andb_true_iff in Hd
    as [Hack%bool_decide_eq_true Hsend%bool_decide_eq_true].
  destruct (IH (signalled (stop_requested d) s) Hrest)
    as (Herr & Hstop & Hsends).
  unfold handle_message. rewrite Hack, Hsend.
  destruct (requeue_count (task (message d)) >=? _) eqn:Hdue;
    destruct (dispatch_batch w batch _) as [[tr' s2] err']; simpl in *;
    rewrite ?Hdue; simpl;
    (split; [done|split;
       [by rewrite Hstop, signalled_stop, orb_assoc|]]);
    rewrite List.filter_app, Hsends; by destruct (stop_requested d).
Qed.

(** The iteration in which the stop event is set, or which starts with
    the event set: the batch is dispatched to its end, the loop yields
    once and is left at line 140. *)
Lemma intake_loop_last_iteration (it : iteration) (rest : list iteration)
    (batch : list delivery) (s : WorkerState) :
  read it = ReadDone batch ->
  forallb succeeds batch = true ->
  stop_reaches it batch s = true ->
  intake_loop w (it :: rest) s =
    (EvRead :: signal_events (stop_during_wait it) ++
       (dispatch_batch w batch (signalled (stop_during_wait it) s)).1.1 ++
       EvSleep :: signal_events (stop_during_sleep it),
     signalled (stop_during_sleep it)
       (dispatch_batch w batch (signalled (stop_during_wait it) s)).1.2,
     LoopBreak).
Proof.
  intros Hread Hok Hstop. simpl. rewrite Hread.
  destruct (dispatch_batch_succeeds batch
              (signalled (stop_during_wait it) s) Hok)
    as (Herr & Hset & _).
  destruct (dispatch_batch w batch _) as [[tr s2] err]. simpl in *.
  subst err. rewrite signalled_stop, Hset, signalled_stop.
  unfold stop_reaches in Hstop. by rewrite Hstop.
Qed.

Lemma after_stop_app (a b : list event) :
  existsb is_stop a = false -> after_stop (a ++ EvStop :: b) = b.
Proof.
  induction a as [|e a IH]; simpl; [done|].
  intros [He Ha]%orb_false_iff. destruct e; try discriminate; by apply IH.
Qed.

(** A signal in the window between line 139 and line 121 is followed
    by the one read of the iteration that begins. *)
Lemma intake_loop_interrupted_reads (before rest : list iteration)
    (it : iteration) (s : WorkerState) :
  (intake_loop w before s).2 = LoopRunning ->
  after_stop (intake_loop_interrupted w before (it :: rest) s).1.1
    = intake_trace w (it :: rest) (stop (intake_loop w before s).1.2)
  ∧ head (after_stop (intake_loop_interrupted w before (it :: rest) s).1.1)
    = Some EvRead
  ∧ reads (after_stop (intake_loop_interrupted w before (it :: rest) s).1.1)
    = 1%nat.
Proof.
  intros Hrun.
  assert (Hquiet : existsb is_stop (intake_trace w before s) = false).
  { destruct (existsb is_stop (intake_trace w before s)) eqn:Hstop; [|done].
    destruct (intake_loop_stop_exits before s Hstop) as [Hex | [e Hex]];
      congruence. }
  assert (Heq :
    after_stop (intake_loop_interrupted w before (it :: rest) s).1.1
    = intake_trace w (it :: rest) (stop (intake_loop w before s).1.2)).
  { unfold intake_loop_interrupted, intake_trace in *.
    destruct (intake_loop w before s) as [[tr s1] ex]. simpl in Hrun, Hquiet.
    subst ex. cbn [fst snd].
    destruct (intake_loop w (it :: rest) (stop s1)) as [[tr' s2] ex'].
    cbn [fst snd]. by apply after_stop_app. }
  rewrite Heq.
  pose proof (intake_loop_reads_first it rest
                (stop (intake_loop w before s).1.2)) as Hhead.
  split; [done|split; [done|]].
  pose proof (intake_loop_stopped (it :: rest)
                (stop (intake_loop w before s).1.2) eq_refl).
  pose proof (reads_head _ Hhead). lia.
Qed.

(** C8 (as the code has it): once [stop()] has been called within an
    iteration (while the loop waits for the read, dispatches the
    batch or sleeps) the intake loop issues no further broker read,
    the only messages still sent into the dispatch channel are those
    of the batch that was being dispatched, and the loop is left.  In
    the iteration in which the signal arrives the loop dispatches the
    batch it has read to its end, so that every message of the batch
    below the delivery limit is sent, in the order of the batch,
    before the loop is left; a read that is still outstanding is
    cancelled.  The stop event is not looked at before a read is
    issued: a loop that is entered with the event already set, and a
    loop whose signal handler runs between the test at the end of an
    iteration and the next read, issue the read of the iteration that
    begins all the same, and only that one. *)
Theorem C8_no_read_after_stop (script : list iteration)
    (s : WorkerState) :
  (∀ e, e ∈ after_stop (intake_trace w script s) -> is_read e = false) ∧
  (∃ batch,
    (batch = [] ∨ ∃ it, it ∈ script ∧ batch = batch_messages (read it)) ∧
    ∀ m, EvSend m ∈ after_stop (intake_trace w script s) -> m ∈ batch) ∧
  (existsb is_stop (intake_trace w script s) = true ->
   (intake_loop w script s).2 = LoopBreak
   ∨ ∃ e, (intake_loop w script s).2 = LoopRaised e) ∧
  (∀ it rest,
     script = it :: rest ->
     head (intake_trace w script s) = Some EvRead
     ∧ (_stop_event s = true -> reads (intake_trace w script s) = 1%nat)) ∧
  (∀ it rest batch,
     script = it :: rest ->
     read it = ReadDone batch ->
     forallb succeeds batch = true ->
     stop_reaches it batch s = true ->
     (intake_loop w script s).2 = LoopBreak
     ∧ reads (intake_trace w script s) = 1%nat
     ∧ List.filter (is_send_below_limit w) (intake_trace w script s)
       = map EvSend
           (List.filter (fun m => is_send_below_limit w (EvSend m))
              (map message batch))) ∧
  (∀ it rest,
     script = it :: rest ->
     read it = ReadPending ->
     _stop_event s || stop_during_wait it = true ->
     intake_loop w script s =
       (EvRead :: signal_events (stop_during_wait it) ++ [EvReadCancel],
        signalled (stop_during_wait it) s, LoopBreak)) ∧
  (∀ it rest,
     (intake_loop w script s).2 = LoopRunning ->
     after_stop (intake_loop_interrupted w script (it :: rest) s).1.1
       = intake_trace w (it :: rest) (stop (intake_loop w script s).1.2)
     ∧ head (after_stop
               (intake_loop_interrupted w script (it :: rest) s).1.1)
       = Some EvRead
     ∧ reads (after_stop
                (intake_loop_interrupted w script (it :: rest) s).1.1)
       = 1%nat).
Proof.
  destruct (intake_loop_after_stop script s) as (batch & Hbatch & Hafter).
  split; [|split; [|split; [|split; [|split; [|split]]]]];
    [| | | | | |intros it rest; apply intake_loop_interrupted_reads].
  - intros e He. eapply winding_down_not_read, Hafter, He.
  - exists batch. split; [done|]. intros m Hm.
    destruct (Hafter _ Hm) as [? | [? | [? | (m' & Hin & [? | Heq])]]];
      try discriminate.
    by injection Heq as ->.
  - apply intake_loop_stop_exits.
  - intros it rest ->.
    pose proof (intake_loop_reads_first it rest s) as Hhead.
    split; [done|]. intros Hs.
    pose proof (intake_loop_stopped (it :: rest) s Hs).
    pose proof (reads_head _ Hhead). lia.
  - intros it rest batch' -> Hread Hok Hstop.
    unfold intake_trace.
    rewrite (intake_loop_last_iteration it rest batch' s Hread Hok Hstop).
    simpl.
    destruct (dispatch_batch_succeeds batch'
                (signalled (stop_during_wait it) s) Hok)
      as (_ & _ & Hsends).
    assert (Hsig : ∀ b,
      reads (signal_events b) = 0%nat
      ∧ List.filter (is_send_below_limit w) (signal_events b) = [])
      by (by intros []).
    split; [done|split].
    + change (EvRead :: ?l) with ([EvRead] ++ l).
      change (EvSleep :: ?l) with ([EvSleep] ++ l).
      rewrite !reads_app, !(proj1 (Hsig _)).
      rewrite (reads_none (dispatch_batch w batch' _).1.1).
      * unfold reads. simpl. lia.
      * intros e He. eapply winding_down_not_read, winding_down_batch, He.
    + rewrite !List.filter_app, (proj2 (Hsig _)), Hsends. simpl.
      by rewrite (proj2 (Hsig _)), app_nil_r.
  - intros it rest -> Hread Hs. simpl. rewrite Hread.
    by rewrite signalled_stop, Hs.
Qed.

End Intake.

(** C1, evaluated on the code: the worker of the sample has
    [max_delivery_attempts = 3]; a message with [requeue_count = 3] is
    acknowledged by the intake loop and then sent into the dispatch
    channel, and the executor that receives it calls the task
    function and fires the on-completion hooks. *)
Theorem C1_exhausted_message_is_dispatched :
  intake_loop Sample.worker
    [Sample.quiet_read [Sample.deliver Sample.exhausted_message]]
    initial_state
  = ([EvRead; EvAck Sample.exhausted_message;
      EvSend Sample.exhausted_message; EvSleep],
     initial_state, LoopRunning)
  ∧ (@worker_body Sample.collaborators Sample.worker
       Sample.exhausted_message initial_state).1.1
  = [EvInsert "t-2" Sample.exhausted_message; EvLookup "test-task";
     EvAckEnter Sample.exhausted_message;
     EvDeserialize (task Sample.exhausted_message);
     EvCall Sample.noop_task [] ∅;
     EvAck Sample.exhausted_message; EvPop "t-2";
     EvResultSet "t-2" VNone;
     EvOnTaskCompletion Sample.on_completion_hook
       (task Sample.exhausted_message) VNone;
     EvOnTaskCompletion Sample.audit_hook
       (task Sample.exhausted_message) VNone].
Proof. split; reflexivity. Qed.

(** C8 as stated fails: the stop signal arrives while the first message
    of a batch of two is being sent, and the second message is sent
    into the dispatch channel after it. *)
Lemma C8_send_after_stop :
  intake_trace Sample.worker
    [Sample.quiet_read
       [{| message := Sample.fresh_message; ack_raises := None;
           send_raises := None; stop_requested := true |};
        Sample.deliver Sample.params_message]]
    initial_state
  = [EvRead; EvSend Sample.fresh_message; EvStop;
     EvSend Sample.params_message; EvSleep]
  ∧ quiet_after_stop
      (intake_trace Sample.worker
         [Sample.quiet_read
            [{| message := Sample.fresh_message; ack_raises := None;
                send_raises := None; stop_requested := true |};
             Sample.deliver Sample.params_message]]
         initial_state) = false.
Proof. split; reflexivity. Qed.

(** ** The executor *)

Lemma filter_none {A : Type} (P Q : A -> bool) (l : list A) :
  Forall (fun x => P x = true) l ->
  (∀ x, P x = true -> Q x = false) ->
  List.filter Q l = [].
Proof.
  intros Hall HPQ. induction Hall as [|x l Hx _ IH]; simpl; [done|].
  by rewrite (HPQ x Hx).
Qed.

Lemma filter_all {A : Type} (Q : A -> bool) (l : list A) :
  Forall (fun x => Q x = true) l -> List.filter Q l = l.
Proof.
  intros Hall. induction Hall as [|x l Hx _ IH]; simpl; [done|].
  by rewrite Hx, IH.
Qed.

Section Executor.

Context {C : Collaborators} (w : AsyncWorker).

Lemma inject_steps (deps : list (string * annotation))
    (kwargs : gmap string pyvalue) :
  Forall (fun e => is_call_step e = true) (inject w deps kwargs).1.
Proof.
  revert kwargs. induction deps as [|[key value] deps IH]; intros kwargs;
    simpl; [constructor|].
  destruct (decide (value = AnnExecutionContext)); [|constructor].
  specialize (IH (setdefault key (shared_context w) kwargs)).
  destruct (inject w deps _) as [tr r]. by constructor.
Qed.

Lemma call_task_fn_steps (t : TaskRecord)
    (d : TaskDefinition) :
  Forall (fun e => is_call_step e = true) (_call_task_fn w t d).1.
Proof.
  unfold _call_task_fn.
  destruct (deserialize_task d t) as [[args kwargs]|e]; simpl;
    [|by repeat constructor].
  pose proof (inject_steps
    (_dependencies_to_inject (func d) [AnnExecutionContext]) kwargs) as Hinj.
  destruct (inject w _ kwargs) as [tr [kwargs'|e]]; simpl in *.
  - constructor; [done|]. apply Forall_app. split; [done|].
    by repeat constructor.
  - by constructor.
Qed.

Lemma ack_context_ok {A : Type} (m : BrokerTask)
    (body : list event * result A) (v : A) :
  body.2 = Ok v ->
  ack_context m body = (EvAckEnter m :: body.1 ++ [EvAck m], Ok v).
Proof. destruct body as [tr r]; simpl. by intros ->. Qed.

Lemma ack_context_raise {A : Type} (m : BrokerTask)
    (body : list event * result A) (e : exn) :
  body.2 = Raise e ->
  ack_context m body = (EvAckEnter m :: body.1, Raise e).
Proof. destruct body as [tr r]; simpl. by intros ->. Qed.

Lemma run_on_task_exception_return
    (t : TaskRecord) (d : TaskDefinition) (e : exn) (hooks : list Extension) :
  (∀ x, x ∈ hooks ->
        on_task_exception x t d (_execution_context w) e = None) ->
  run_on_task_exception w t d e hooks =
    (map (fun x => EvOnTaskException x t e) hooks, None).
Proof.
  induction hooks as [|x hooks IH]; intros Hret; simpl; [done|].
  rewrite (Hret x) by (here).
  rewrite IH; [done|]. intros y Hy. apply Hret, elem_of_cons. by right.
Qed.

Lemma run_on_task_completion_return
    (t : TaskRecord) (d : TaskDefinition) (v : pyvalue)
    (hooks : list Extension) :
  (∀ x, x ∈ hooks ->
        on_task_completion x t d (_execution_context w) v = None) ->
  run_on_task_completion w t d v hooks =
    (map (fun x => EvOnTaskCompletion x t v) hooks, None).
Proof.
  induction hooks as [|x hooks IH]; intros Hret; simpl; [done|].
  rewrite (Hret x) by (here).
  rewrite IH; [done|]. intros y Hy. apply Hret, elem_of_cons. by right.
Qed.

(** The body of the loop for a registered task name: lines 167-169,
    then the [async with] block, then lines 175-196. *)
Lemma worker_body_registered
    (m : BrokerTask) (s : WorkerState) (d : TaskDefinition) :
  _tasks w !! task_name (task m) = Some d ->
  worker_body w m s =
    ([EvInsert (task_id (task m)) m; EvLookup (task_name (task m))] ++
       (ack_context m (_call_task_fn w (task m) d)).1 ++
       (settle w m d (ack_context m (_call_task_fn w (task m) d)).2
          (claim m s)).1.1,
     (settle w m d (ack_context m (_call_task_fn w (task m) d)).2
        (claim m s)).1.2,
     (settle w m d (ack_context m (_call_task_fn w (task m) d)).2
        (claim m s)).2).
Proof.
  intros Hd. unfold worker_body. rewrite Hd.
  destruct (ack_context m _) as [tr r]. simpl.
  by destruct (settle w m d r (claim m s)) as [[tr' s2] err].
Qed.

Lemma worker_continue (m : BrokerTask)
    (rest : list BrokerTask) (s : WorkerState) :
  (worker_body w m s).2 = None ->
  _worker w (m :: rest) s =
    ((worker_body w m s).1.1 ++ (_worker w rest (worker_body w m s).1.2).1.1,
     (_worker w rest (worker_body w m s).1.2).1.2,
     (_worker w rest (worker_body w m s).1.2).2).
Proof.
  simpl. destruct (worker_body w m s) as [[tr s1] err]. simpl. intros ->.
  by destruct (_worker w rest s1) as [[tr' s2] err'].
Qed.

(** C2, on the code: the lookup of line 169 stands one line before the
    [try] statement that handles every other failure of a task.  For
    a task name that is not in the registry the [KeyError] therefore
    leaves the executor loop: the executor handles no further message,
    no hook fires, and the id stays in the in-flight registry. *)
Theorem C2_unknown_name_leaves_the_loop
    (m : BrokerTask) (rest : list BrokerTask) (s : WorkerState) :
  _tasks w !! task_name (task m) = None ->
  _worker w (m :: rest) s =
    ([EvInsert (task_id (task m)) m; EvLookup (task_name (task m))],
     claim m s,
     Some (KeyError (task_name (task m)))).
Proof.
  intros Hnone. simpl. unfold worker_body. by rewrite Hnone.
Qed.

(** C3 (as the code has it): the steps of one task run in the order
    insert, lookup, ack context, deserialize, inject, call.  When the
    call returns, the ack context commits and the [finally] clause
    removes the id from the in-flight registry before the result is
    stored and the on-completion hooks run.  When the call raises an
    [Exception], the on-exception hooks run first and the removal
    follows them; any other exception is followed by the removal
    alone. *)
Theorem C3_order_of_steps (m : BrokerTask)
    (s : WorkerState) (d : TaskDefinition) (args : list pyvalue)
    (kwargs kwargs' : gmap string pyvalue) (injected : list event) :
  _tasks w !! task_name (task m) = Some d ->
  deserialize_task d (task m) = Ok (args, kwargs) ->
  inject w (_dependencies_to_inject (func d) [AnnExecutionContext]) kwargs
    = (injected, Ok kwargs') ->
  (worker_body w m s).1.1 =
    [EvInsert (task_id (task m)) m; EvLookup (task_name (task m));
     EvAckEnter m; EvDeserialize (task m)] ++ injected ++
    [EvCall d args kwargs'] ++
    match middleware_call (_ext_on_task_execution w) d args kwargs'
            (_execution_context w) with
    | Ok v =>
        [EvAck m; EvPop (task_id (task m))] ++
        (store_and_complete w (task m) d v).1
    | Raise e =>
        if is_Exception e then
          (run_on_task_exception w (task m) d e
             (_ext_on_task_exception w)).1 ++ [EvPop (task_id (task m))]
        else [EvPop (task_id (task m))]
    end.
Proof.
  intros Hd Hdes Hinj.
  rewrite (worker_body_registered m s d Hd). simpl.
  do 2 f_equal. unfold _call_task_fn. rewrite Hdes, Hinj.
  destruct (middleware_call _ d args kwargs' _) as [v|e]; simpl.
  - destruct (store_and_complete w (task m) d v) as [tr err]. simpl.
    by rewrite <- !app_assoc.
  - destruct (is_Exception e).
    + destruct (run_on_task_exception w (task m) d e _) as [tr err]. simpl.
      by rewrite <- !app_assoc.
    + simpl. by rewrite <- !app_assoc.
Qed.

Lemma call_steps_no_outcome
    (t : TaskRecord) (d : TaskDefinition) :
  List.filter is_outcome (_call_task_fn w t d).1 = [].
Proof.
  eapply filter_none; [apply call_task_fn_steps|]. by intros [].
Qed.

Lemma call_steps_no_ack
    (t : TaskRecord) (d : TaskDefinition) :
  List.filter is_ack (_call_task_fn w t d).1 = [].
Proof.
  eapply filter_none; [apply call_task_fn_steps|]. by intros [].
Qed.

Lemma filter_outcome_exception_hooks (t : TaskRecord) (e : exn)
    (hooks : list Extension) :
  List.filter is_outcome (map (fun x => EvOnTaskException x t e) hooks)
  = map (fun x => EvOnTaskException x t e) hooks.
Proof. apply filter_all, Forall_map, Forall_forall. done. Qed.

Lemma filter_outcome_completion_hooks (t : TaskRecord) (v : pyvalue)
    (hooks : list Extension) :
  List.filter is_outcome (map (fun x => EvOnTaskCompletion x t v) hooks)
  = map (fun x => EvOnTaskCompletion x t v) hooks.
Proof. apply filter_all, Forall_map, Forall_forall. done. Qed.

Lemma filter_ack_exception_hooks (t : TaskRecord) (e : exn)
    (hooks : list Extension) :
  List.filter is_ack (map (fun x => EvOnTaskException x t e) hooks) = [].
Proof. induction hooks; simpl; auto. Qed.

(** C4: when the call of a task raises an [Exception] [e] (and the
    on-exception hooks return), the hooks of the trace are exactly the
    registered on-exception hooks, each invoked once with [e], in
    registration order; no on-completion hook fires and no result is
    stored; the message is not acknowledged; and the executor goes on
    with the next message. *)
Theorem C4_exception_path (m : BrokerTask)
    (rest : list BrokerTask) (s : WorkerState) (d : TaskDefinition)
    (e : exn) :
  _tasks w !! task_name (task m) = Some d ->
  (_call_task_fn w (task m) d).2 = Raise e ->
  is_Exception e = true ->
  (∀ x, x ∈ _ext_on_task_exception w ->
        on_task_exception x (task m) d (_execution_context w) e = None) ->
  List.filter is_outcome (worker_body w m s).1.1 =
    map (fun x => EvOnTaskException x (task m) e) (_ext_on_task_exception w)
  ∧ List.filter is_ack (worker_body w m s).1.1 = []
  ∧ (worker_body w m s).2 = None
  ∧ _worker w (m :: rest) s =
      ((worker_body w m s).1.1 ++
         (_worker w rest (release m (claim m s))).1.1,
       (_worker w rest (release m (claim m s))).1.2,
       (_worker w rest (release m (claim m s))).2).
Proof.
  intros Hd Hraise Hexc Hhooks.
  assert (Hbody : worker_body w m s =
    ([EvInsert (task_id (task m)) m; EvLookup (task_name (task m))] ++
       (EvAckEnter m :: (_call_task_fn w (task m) d).1) ++
       map (fun x => EvOnTaskException x (task m) e)
         (_ext_on_task_exception w) ++ [EvPop (task_id (task m))],
     release m (claim m s), None)).
  { rewrite (worker_body_registered m s d Hd).
    rewrite (ack_context_raise m _ e Hraise). simpl. rewrite Hexc.
    by rewrite (run_on_task_exception_return _ d e _ Hhooks). }
  split; [|split; [|split]].
  - rewrite Hbody. simpl. rewrite !List.filter_app, call_steps_no_outcome.
    rewrite filter_outcome_exception_hooks. simpl. by rewrite app_nil_r.
  - rewrite Hbody. simpl. rewrite !List.filter_app, call_steps_no_ack.
    by rewrite filter_ack_exception_hooks.
  - by rewrite Hbody.
  - rewrite worker_continue by (by rewrite Hbody). by rewrite Hbody.
Qed.

Lemma stored_from_app (acc : gmap string pyvalue) (a b : list event) :
  stored_from acc (a ++ b) = stored_from (stored_from acc a) b.
Proof. apply fold_left_app. Qed.

Lemma stored_from_other (acc : gmap string pyvalue) (tr : list event) :
  Forall (fun e => is_result_set e = false) tr -> stored_from acc tr = acc.
Proof.
  intros Hall. revert acc.
  induction Hall as [|e tr He _ IH]; intros acc; simpl; [done|].
  destruct e; try discriminate; apply IH.
Qed.

(** C5: when the call of a task returns [v], a result backend is
    configured (and its [set] and the on-completion hooks return), the
    executor stores [v] under the id of the task; the outcome events of
    the trace are that one storage call followed by the registered
    on-completion hooks, each invoked once with [v], in registration
    order. *)
Theorem C5_success_path (m : BrokerTask)
    (s : WorkerState) (d : TaskDefinition) (v : pyvalue) (backend : nat) :
  _tasks w !! task_name (task m) = Some d ->
  (_call_task_fn w (task m) d).2 = Ok v ->
  _result_backend w = Some backend ->
  result_backend_set backend (task_id (task m)) v = None ->
  (∀ x, x ∈ _ext_on_task_completion w ->
        on_task_completion x (task m) d (_execution_context w) v = None) ->
  List.filter is_outcome (worker_body w m s).1.1 =
    EvResultSet (task_id (task m)) v ::
    map (fun x => EvOnTaskCompletion x (task m) v) (_ext_on_task_completion w)
  ∧ stored (worker_body w m s).1.1 !! task_id (task m) = Some v
  ∧ (worker_body w m s).2 = None.
Proof.
  intros Hd Hok Hbackend Hset Hhooks.
  assert (Hbody : worker_body w m s =
    ([EvInsert (task_id (task m)) m; EvLookup (task_name (task m))] ++
       (EvAckEnter m :: (_call_task_fn w (task m) d).1 ++ [EvAck m]) ++
       EvPop (task_id (task m)) :: EvResultSet (task_id (task m)) v ::
       map (fun x => EvOnTaskCompletion x (task m) v)
         (_ext_on_task_completion w),
     release m (claim m s), None)).
  { rewrite (worker_body_registered m s d Hd).
    rewrite (ack_context_ok m _ v Hok). simpl.
    unfold store_and_complete. rewrite Hbackend, Hset.
    by rewrite (run_on_task_completion_return _ d v _ Hhooks). }
  split; [|split].
  - rewrite Hbody. simpl. rewrite !List.filter_app, call_steps_no_outcome.
    simpl. by rewrite filter_outcome_completion_hooks.
  - rewrite Hbody. unfold stored. simpl.
    rewrite stored_from_app.
    rewrite (stored_from_other ∅).
    2:{ apply Forall_app. split; [|by repeat constructor].
        eapply Forall_impl; [apply call_task_fn_steps|].
        by intros []. }
    simpl. rewrite stored_from_other.
    + apply lookup_insert_eq.
    + apply Forall_map, Forall_forall. done.
  - by rewrite Hbody.
Qed.

(** *** The in-flight registry *)

(** Every path through lines 175-196 runs the [finally] clause. *)
Lemma settle_state (m : BrokerTask)
    (d : TaskDefinition) (r : result pyvalue) (s : WorkerState) :
  (settle w m d r s).1.2 = release m s.
Proof.
  unfold settle. destruct r as [v|e].
  - by destruct (store_and_complete w (task m) d v).
  - destruct (is_Exception e); [|done].
    by destruct (run_on_task_exception w (task m) d e _).
Qed.





(** X1: an on-exception hook that raises is not caught.  The hooks
    registered after it do not run, the [finally] clause still removes
    the id from the in-flight registry, and the exception of the hook
    leaves the executor loop. *)
Theorem X1_hook_failure_leaves_the_loop (m : BrokerTask)
    (rest : list BrokerTask) (s : WorkerState) (d : TaskDefinition)
    (e e' : exn) (x : Extension) (hooks : list Extension) :
  _tasks w !! task_name (task m) = Some d ->
  (_call_task_fn w (task m) d).2 = Raise e ->
  is_Exception e = true ->
  _ext_on_task_exception w = x :: hooks ->
  on_task_exception x (task m) d (_execution_context w) e = Some e' ->
  _worker w (m :: rest) s =
    ([EvInsert (task_id (task m)) m; EvLookup (task_name (task m));
      EvAckEnter m] ++ (_call_task_fn w (task m) d).1 ++
     [EvOnTaskException x (task m) e; EvPop (task_id (task m))],
     release m (claim m s), Some e').
Proof.
  intros Hd Hraise Hexc Hhooks Hfail. simpl.
  rewrite (worker_body_registered m s d Hd).
  rewrite (ack_context_raise m _ e Hraise). simpl.
  by rewrite Hexc, Hhooks; simpl; rewrite Hfail.
Qed.

(** X2: a cancelled call.  [CancelledError] is not an [Exception]: no
    hook fires and nothing is acknowledged, the [finally] clause
    removes the id from the in-flight registry, and the cancellation
    leaves the executor loop. *)
Theorem X2_cancellation_leaves_the_loop (m : BrokerTask)
    (rest : list BrokerTask) (s : WorkerState) (d : TaskDefinition) :
  _tasks w !! task_name (task m) = Some d ->
  (_call_task_fn w (task m) d).2 = Raise CancelledError ->
  _worker w (m :: rest) s =
    ([EvInsert (task_id (task m)) m; EvLookup (task_name (task m));
      EvAckEnter m] ++ (_call_task_fn w (task m) d).1 ++
     [EvPop (task_id (task m))],
     release m (claim m s), Some CancelledError).
Proof.
  intros Hd Hraise. simpl.
  rewrite (worker_body_registered m s d Hd).
  by rewrite (ack_context_raise m _ _ Hraise).
Qed.

End Executor.

(** *** The executor of the sample worker *)

Lemma C2_unknown_name_leaves_the_loop_witness :
  _tasks Sample.worker !! task_name (task Sample.unknown_message) = None ∧
  @_worker Sample.collaborators Sample.worker
    [Sample.unknown_message; Sample.fresh_message] initial_state =
    ([EvInsert "t-3" Sample.unknown_message; EvLookup "no-such-task"],
     claim Sample.unknown_message initial_state,
     Some (KeyError "no-such-task")).
Proof.
  split; [reflexivity|].
  apply (@C2_unknown_name_leaves_the_loop Sample.collaborators
           Sample.worker Sample.unknown_message [Sample.fresh_message]
           initial_state).
  reflexivity.
Defined.

(** The same on the sample worker: a message with an unregistered task
    name makes the executor loop end with [KeyError]; the message that
    follows it is never handled. *)
Lemma C2_unknown_name_ends_executor :
  (@_worker Sample.collaborators Sample.worker
     [Sample.unknown_message; Sample.fresh_message] initial_state).2
  = Some (KeyError "no-such-task")
  ∧ (@_worker Sample.collaborators Sample.worker
       [Sample.unknown_message; Sample.fresh_message] initial_state).1.1
  = [EvInsert "t-3" Sample.unknown_message; EvLookup "no-such-task"]
  ∧ _active_tasks
      (@_worker Sample.collaborators Sample.worker
         [Sample.unknown_message; Sample.fresh_message] initial_state).1.2
      !! "t-3" = Some Sample.unknown_message.
Proof. repeat split; reflexivity. Qed.

Lemma C3_order_of_steps_witness :
  (@worker_body Sample.collaborators Sample.worker Sample.context_message
     initial_state).1.1 =
    [EvInsert "t-5" Sample.context_message; EvLookup "context-task";
     EvAckEnter Sample.context_message;
     EvDeserialize (task Sample.context_message)] ++
    [EvInject "context" (VObj 7)] ++
    [EvCall Sample.context_task []
       (<["context" := VObj 7]> (<["a" := VInt 1]> ∅))] ++
    [EvAck Sample.context_message; EvPop "t-5"] ++
    [EvResultSet "t-5" (VInt 1);
     EvOnTaskCompletion Sample.on_completion_hook
       (task Sample.context_message) (VInt 1);
     EvOnTaskCompletion Sample.audit_hook
       (task Sample.context_message) (VInt 1)].
Proof.
  exact (@C3_order_of_steps Sample.collaborators Sample.worker
           Sample.context_message initial_state Sample.context_task []
           (<["a" := VInt 1]> ∅)
           (<["context" := VObj 7]> (<["a" := VInt 1]> ∅))
           [EvInject "context" (VObj 7)] eq_refl eq_refl eq_refl).
Defined.

(** C3 as stated fails: on the success path the id is removed from the
    in-flight registry before the result is stored and before the
    on-completion hooks run. *)
Lemma C3_removal_precedes_storage :
  after_pop
    (@worker_body Sample.collaborators Sample.worker Sample.fresh_message
       initial_state).1.1
  = [EvResultSet "t-1" VNone;
     EvOnTaskCompletion Sample.on_completion_hook
       (task Sample.fresh_message) VNone;
     EvOnTaskCompletion Sample.audit_hook
       (task Sample.fresh_message) VNone]
  ∧ removal_is_last
      (@worker_body Sample.collaborators Sample.worker Sample.fresh_message
         initial_state).1.1 = false.
Proof. split; reflexivity. Qed.

Lemma C4_exception_path_witness :
  List.filter is_outcome
    (@worker_body Sample.collaborators Sample.worker Sample.failing_message
       initial_state).1.1 =
    [EvOnTaskException Sample.on_exception_hook
       (task Sample.failing_message) (RuntimeError "boom");
     EvOnTaskException Sample.audit_hook
       (task Sample.failing_message) (RuntimeError "boom")]
  ∧ List.filter is_ack
      (@worker_body Sample.collaborators Sample.worker
         Sample.failing_message initial_state).1.1 = []
  ∧ (@worker_body Sample.collaborators Sample.worker Sample.failing_message
       initial_state).2 = None
  ∧ @_worker Sample.collaborators Sample.worker
      [Sample.failing_message; Sample.fresh_message] initial_state =
      ((@worker_body Sample.collaborators Sample.worker
          Sample.failing_message initial_state).1.1 ++
         (@_worker Sample.collaborators Sample.worker [Sample.fresh_message]
            (release Sample.failing_message
               (claim Sample.failing_message initial_state))).1.1,
       (@_worker Sample.collaborators Sample.worker [Sample.fresh_message]
          (release Sample.failing_message
             (claim Sample.failing_message initial_state))).1.2,
       (@_worker Sample.collaborators Sample.worker [Sample.fresh_message]
          (release Sample.failing_message
             (claim Sample.failing_message initial_state))).2).
Proof.
  exact (@C4_exception_path Sample.collaborators Sample.worker
           Sample.failing_message [Sample.fresh_message] initial_state
           Sample.failing_task (RuntimeError "boom")
           eq_refl eq_refl eq_refl (fun _ _ => eq_refl)).
Defined.

Lemma C5_success_path_witness :
  List.filter is_outcome
    (@worker_body Sample.collaborators Sample.worker Sample.params_message
       initial_state).1.1 =
    [EvResultSet "t-6" (VInt 1);
     EvOnTaskCompletion Sample.on_completion_hook
       (task Sample.params_message) (VInt 1);
     EvOnTaskCompletion Sample.audit_hook
       (task Sample.params_message) (VInt 1)]
  ∧ stored
      (@worker_body Sample.collaborators Sample.worker Sample.params_message
         initial_state).1.1 !! "t-6" = Some (VInt 1)
  ∧ (@worker_body Sample.collaborators Sample.worker Sample.params_message
       initial_state).2 = None.
Proof.
  exact (@C5_success_path Sample.collaborators Sample.worker
           Sample.params_message initial_state Sample.task_with_params
           (VInt 1) 0%nat eq_refl eq_refl eq_refl eq_refl
           (fun _ _ => eq_refl)).
Defined.

Lemma X1_hook_failure_leaves_the_loop_witness :
  @_worker Sample.hostile_collaborators Sample.worker
    [Sample.failing_message; Sample.fresh_message] initial_state =
    ([EvInsert "t-4" Sample.failing_message; EvLookup "failing-task";
      EvAckEnter Sample.failing_message] ++
     [EvDeserialize (task Sample.failing_message);
      EvCall Sample.failing_task [] ∅] ++
     [EvOnTaskException Sample.on_exception_hook
        (task Sample.failing_message) (RuntimeError "boom");
      EvPop "t-4"],
     release Sample.failing_message
       (claim Sample.failing_message initial_state),
     Some (RuntimeError "hook")).
Proof.
  exact (@X1_hook_failure_leaves_the_loop Sample.hostile_collaborators
           Sample.worker Sample.failing_message [Sample.fresh_message]
           initial_state Sample.failing_task (RuntimeError "boom")
           (RuntimeError "hook") Sample.on_exception_hook
           [Sample.audit_hook] eq_refl eq_refl eq_refl eq_refl eq_refl).
Defined.

Lemma X2_cancellation_leaves_the_loop_witness :
  @_worker Sample.hostile_collaborators Sample.worker
    [Sample.fresh_message; Sample.failing_message] initial_state =
    ([EvInsert "t-1" Sample.fresh_message; EvLookup "test-task";
      EvAckEnter Sample.fresh_message] ++
     [EvDeserialize (task Sample.fresh_message);
      EvCall Sample.noop_task [] ∅] ++
     [EvPop "t-1"],
     release Sample.fresh_message (claim Sample.fresh_message initial_state),
     Some CancelledError).
Proof.
  exact (@X2_cancellation_leaves_the_loop Sample.hostile_collaborators
           Sample.worker Sample.fresh_message [Sample.failing_message]
           initial_state Sample.noop_task eq_refl eq_refl).
Defined.

(** ** Lease renewal *)

Lemma claim_pending_goes_on (pre rest : list renewal_turn) :
  forallb goes_on pre = true ->
  _claim_pending_tasks (pre ++ rest) =
    (flat_map renewal pre ++ (_claim_pending_tasks rest).1,
     (_claim_pending_tasks rest).2).
Proof.
  induction pre as [|t pre IH]; intros Hpre; simpl.
  { by destruct (_claim_pending_tasks rest). }
  simpl in Hpre. apply andb_true_iff in Hpre as [Ht Hpre].
  unfold goes_on, renewal_fails in Ht.
  apply andb_true_iff in Ht as [Hok%bool_decide_eq_true Hgo%negb_true_iff].
  rewrite Hok, Hgo, (IH Hpre). unfold renewal. simpl.
  by rewrite <- app_assoc.
Qed.

Lemma claim_pending_renews (turns : list renewal_turn)
    (registry : gmap string BrokerTask) :
  EvHealthcheck registry ∈ (_claim_pending_tasks turns).1 ->
  registry ≠ ∅ ∧ ∃ t, t ∈ turns ∧ registry = registry_now t.
Proof.
  induction turns as [|t rest IH]; simpl; intros Hin.
  { by apply elem_of_nil in Hin. }
  assert (Hhere : EvHealthcheck registry ∈
            (if decide (registry_now t = ∅) then []
             else [EvHealthcheck (registry_now t)]) ->
          registry ≠ ∅ ∧ ∃ t', t' ∈ t :: rest ∧ registry = registry_now t').
  { destruct (decide (registry_now t = ∅)) as [|Hne];
      [by intros ?%elem_of_nil|].
    intros Heq%list_elem_of_singleton. injection Heq as ->.
    split; [done|]. exists t. split; [here | done]. }
  destruct (if decide (registry_now t = ∅) then None
            else healthcheck_raises t) as [x|]; simpl in Hin; [auto|].
  destruct (stop_seen t); simpl in Hin; [auto|].
  destruct (_claim_pending_tasks rest) as [tr ex]. simpl in *.
  apply elem_of_app in Hin as [Hin|Hin]; [auto|].
  destruct (IH Hin) as (Hne & t' & Ht' & Heq).
  split; [done|]. exists t'. split; [there | done].
Qed.

(** X3: in each of its turns the lease-renewal loop calls
    [tasks_healthcheck] when, and only when, the in-flight registry is
    not empty, for the registry as it is at that moment.  After turns
    that neither fail nor find the stop event set, the loop returns at
    the first turn in which it finds the event set, whether or not
    messages are in flight, and runs no later turn; an exception of
    [tasks_healthcheck] leaves the loop at that turn; and while
    neither happens the loop keeps running. *)
Theorem X3_lease_renewal (pre rest : list renewal_turn) (t : renewal_turn) :
  forallb goes_on pre = true ->
  _claim_pending_tasks (pre ++ t :: rest) =
    (match renewal_fails t with
     | Some e => (flat_map renewal (pre ++ [t]), LoopRaised e)
     | None =>
         if stop_seen t then (flat_map renewal (pre ++ [t]), LoopBreak)
         else (flat_map renewal (pre ++ [t]) ++ (_claim_pending_tasks rest).1,
               (_claim_pending_tasks rest).2)
     end)
  ∧ _claim_pending_tasks pre = (flat_map renewal pre, LoopRunning)
  ∧ (∀ registry,
       EvHealthcheck registry ∈ (_claim_pending_tasks (pre ++ t :: rest)).1 ->
       registry ≠ ∅
       ∧ ∃ t', t' ∈ pre ++ t :: rest ∧ registry = registry_now t')
  ∧ (∀ t', renewal t' = [] <-> registry_now t' = ∅).
Proof.
  intros Hpre. split; [|split; [|split]].
  - rewrite (claim_pending_goes_on pre (t :: rest) Hpre).
    rewrite flat_map_app. simpl. rewrite app_nil_r.
    unfold renewal_fails, renewal.
    destruct (if decide (registry_now t = ∅) then None
              else healthcheck_raises t) as [e|]; simpl; [done|].
    destruct (stop_seen t); simpl; [done|].
    destruct (_claim_pending_tasks rest) as [tr ex]. simpl.
    by rewrite <- app_assoc.
  - pose proof (claim_pending_goes_on pre [] Hpre) as Hrun.
    rewrite app_nil_r in Hrun. rewrite Hrun. simpl. by rewrite app_nil_r.
  - intros registry. apply claim_pending_renews.
  - intros t'. unfold renewal.
    by destruct (decide (registry_now t' = ∅)).
Qed.

Lemma X3_lease_renewal_witness :
  _claim_pending_tasks
    ([{| registry_now := <["t-1" := Sample.fresh_message]> ∅;
         healthcheck_raises := None; stop_seen := false |};
      {| registry_now := ∅;
         healthcheck_raises := None; stop_seen := false |}] ++
     {| registry_now := <["t-4" := Sample.failing_message]> ∅;
        healthcheck_raises := None; stop_seen := true |} ::
     [{| registry_now := <["t-4" := Sample.failing_message]> ∅;
         healthcheck_raises := None; stop_seen := false |}])
  = ([EvHealthcheck (<["t-1" := Sample.fresh_message]> ∅);
      EvHealthcheck (<["t-4" := Sample.failing_message]> ∅)], LoopBreak).
Proof.
  exact (proj1
    (X3_lease_renewal
       [{| registry_now := <["t-1" := Sample.fresh_message]> ∅;
           healthcheck_raises := None; stop_seen := false |};
        {| registry_now := ∅;
           healthcheck_raises := None; stop_seen := false |}]
       [{| registry_now := <["t-4" := Sample.failing_message]> ∅;
           healthcheck_raises := None; stop_seen := false |}]
       {| registry_now := <["t-4" := Sample.failing_message]> ∅;
          healthcheck_raises := None; stop_seen := true |}
       eq_refl)).
Defined.

(** ** Shutdown *)

(** [_shutdown_tasks] is the clause of a coroutine that is not
    cancelled while it waits. *)
Lemma shutdown_tasks_uncancelled (w : AsyncWorker) (ts : list bg_task)
    (in_time : bool) (body : option exn) (s : WorkerState) :
  _shutdown_tasks w ts in_time body s =
    _shutdown_tasks_finally w ts (if in_time then Completed else Elapsed)
      false body s.
Proof.
  unfold _shutdown_tasks, _shutdown_tasks_finally.
  destruct ts as [|t ts]; by destruct in_time.
Qed.


(** ** Dependency injection *)








(** ** The dispatch channel *)

Lemma send_unbuffered (item : BrokerTask) (st : MemoryObjectStreamState) :
  unbuffered st -> unbuffered (send item st).1.
Proof.
  intros [Hmax Hbuf]. unfold send, unbuffered.
  destruct (waiting_receivers st) as [|r rs]; simpl; [|done].
  rewrite Hmax, Hbuf. simpl. done.
Qed.

Lemma receive_unbuffered (r : nat) (st : MemoryObjectStreamState) :
  unbuffered st -> unbuffered (receive r st).1.
Proof.
  intros [Hmax Hbuf]. unfold receive, unbuffered. rewrite Hbuf.
  destruct (waiting_senders st) as [|item rest]; simpl; done.
Qed.

Lemma channel_run_unbuffered (ops : list channel_op)
    (st : MemoryObjectStreamState) :
  unbuffered st -> unbuffered (channel_run ops st).
Proof.
  unfold channel_run. revert st.
  induction ops as [|op ops IH]; intros st Hst; simpl; [done|].
  apply IH. destruct op; simpl;
    [by apply send_unbuffered | by apply receive_unbuffered].
Qed.

(** C10: line 86 creates the dispatch channel without a buffer size, so
    its capacity is the default 0.  Whatever the intake loop and the
    executors do on it, the channel never holds a buffered message: a
    send either hands the message to an executor that is already
    waiting in a receive, or suspends the sender; and a receive takes
    the message of the first suspended sender, or suspends the
    executor. *)
Theorem C10_dispatch_channel_unbuffered (ops : list channel_op)
    (item : BrokerTask) :
  max_buffer_size dispatch_channel = 0%nat
  ∧ max_buffer_size (channel_run ops dispatch_channel) = 0%nat
  ∧ buffer (channel_run ops dispatch_channel) = []
  ∧ match (send item (channel_run ops dispatch_channel)).2 with
    | Delivered r =>
        head (waiting_receivers (channel_run ops dispatch_channel)) = Some r
    | Buffered => False
    | SenderSuspended =>
        waiting_receivers (channel_run ops dispatch_channel) = []
        ∧ buffer (send item (channel_run ops dispatch_channel)).1 = []
        ∧ item ∈ waiting_senders
                   (send item (channel_run ops dispatch_channel)).1
    end
  ∧ ∀ r,
      (receive r (channel_run ops dispatch_channel)).2 =
        match waiting_senders (channel_run ops dispatch_channel) with
        | first :: _ => Received first
        | [] => ReceiverSuspended
        end.
Proof.
  assert (Hinit : unbuffered dispatch_channel) by done.
  destruct (channel_run_unbuffered ops _ Hinit) as [Hmax Hbuf].
  split; [done|split; [done|split; [done|split]]].
  - unfold send. destruct (waiting_receivers _) as [|r rs] eqn:Hrecv; simpl;
      [|done].
    rewrite Hmax, Hbuf. simpl. split; [done|split; [done|]].
    apply elem_of_app. right. by apply list_elem_of_singleton.
  - intros r. unfold receive. rewrite Hbuf.
    by destruct (waiting_senders _) as [|first rest].
Qed.

(** * Further properties *)

(** ** The intake loop, message by message *)

Section IntakeDispatch.

Context (w : AsyncWorker).

Lemma handle_message_ack_due (d : delivery) :
  forallb (ack_is_due w) (handle_message w d).1 = true.
Proof.
  unfold handle_message.
  destruct (requeue_count (task (message d)) >=? _) eqn:Hdue.
  - destruct (ack_raises d); simpl; rewrite Hdue; simpl;
      by destruct (stop_requested d).
  - simpl. by destruct (stop_requested d).
Qed.

Lemma dispatch_batch_ack_due (batch : list delivery) (s : WorkerState) :
  forallb (ack_is_due w) (dispatch_batch w batch s).1.1 = true.
Proof.
  revert s. induction batch as [|d batch IH]; intros s; simpl; [done|].
  pose proof (handle_message_ack_due d) as Hd.
  destruct (handle_message w d) as [tr [e|]]; simpl in *; [done|].
  specialize (IH (signalled (stop_requested d) s)).
  destruct (dispatch_batch w batch _) as [[tr' s2] err']; simpl in *.
  by rewrite forallb_app, Hd, IH.
Qed.

(** X4: the intake loop acknowledges a message only when its
    redelivery count has reached [max_delivery_attempts]: a message
    below the limit is never acknowledged by the loop. *)
Theorem X4_intake_acks_only_exhausted (script : list iteration)
    (s : WorkerState) :
  forallb (ack_is_due w) (intake_trace w script s) = true.
Proof.
  unfold intake_trace. revert s.
  induction script as [|it rest IH]; intros s; simpl; [done|].
  assert (Hsig : ∀ b, forallb (ack_is_due w) (signal_events b) = true)
    by (by intros []).
  destruct (read it) as [|batch|x]; simpl.
  - destruct (_stop_event _); simpl; rewrite ?forallb_app, Hsig; done.
  - pose proof (dispatch_batch_ack_due batch
                  (signalled (stop_during_wait it) s)) as Hbatch.
    destruct (dispatch_batch w batch _) as [[tr s2] err]; simpl in *.
    destruct err as [x|]; simpl; [by rewrite forallb_app, Hsig, Hbatch|].
    destruct (_stop_event _); simpl.
    + rewrite !forallb_app, Hsig, Hbatch. simpl. by rewrite Hsig.
    + specialize (IH (signalled (stop_during_sleep it) s2)).
      destruct (intake_loop w rest _) as [[tr' s4] ex]; simpl in *.
      rewrite !forallb_app, Hsig, Hbatch. simpl.
      by rewrite forallb_app, Hsig, IH.
  - apply Hsig.
Qed.

(** X5: a batch of messages below the limit, none of whose sends
    fails, is sent into the dispatch channel message by message in the
    order in which the broker returned it; nothing is acknowledged and
    no exception leaves the loop over the batch. *)
Theorem X5_batch_is_sent_in_order (batch : list delivery) (s : WorkerState) :
  forallb (fun d => negb (exhausted w d) && succeeds d) batch = true ->
  List.filter (fun e => negb (is_stop e)) (dispatch_batch w batch s).1.1
    = map (fun d => EvSend (message d)) batch
  ∧ (dispatch_batch w batch s).2 = None.
Proof.
  revert s. induction batch as [|d batch IH]; intros s Hall; simpl in *;
    [done|].
  apply andb_true_iff in Hall as [Hd Hrest].
  apply andb_true_iff in Hd as [Hfresh Hok].
  apply negb_true_iff in Hfresh. unfold exhausted in Hfresh.
  apply andb_true_iff in Hok as [_ Hsend%bool_decide_eq_true].
  unfold handle_message. rewrite Hfresh, Hsend.
  destruct (IH (signalled (stop_requested d) s) Hrest) as [Htr Herr].
  destruct (dispatch_batch w batch _) as [[tr' s2] err']; simpl in *.
  rewrite List.filter_app, Htr.
  split; [|done]. by destruct (stop_requested d).
Qed.

Lemma dispatch_batch_failure (pre post : list delivery) (d : delivery)
    (e : exn) (s : WorkerState) :
  (dispatch_batch w pre s).2 = None ->
  (handle_message w d).2 = Some e ->
  dispatch_batch w (pre ++ d :: post) s =
    ((dispatch_batch w pre s).1.1 ++ (handle_message w d).1,
     signalled (stop_requested d) (dispatch_batch w pre s).1.2,
     Some e).
Proof.
  intros Hok Hfail. revert s Hok.
  induction pre as [|d0 pre IH]; intros s Hok; simpl in *.
  - destruct (handle_message w d) as [tr err]. simpl in Hfail.
    by subst err.
  - destruct (handle_message w d0) as [tr0 [e0|]]; simpl in *;
      [discriminate|].
    specialize (IH (signalled (stop_requested d0) s)).
    destruct (dispatch_batch w pre _) as [[tr1 s1] err1]; simpl in *.
    rewrite (IH Hok). by rewrite <- app_assoc.
Qed.

(** X6: when the acknowledgment or the send of a message fails, the
    exception leaves the loop at once: the messages that follow it in
    the batch are neither acknowledged nor sent, the loop does not
    yield, and no further read is issued. *)
Theorem X6_failure_ends_the_batch (pre post : list delivery) (d : delivery)
    (e : exn) (it : iteration) (rest : list iteration) (s : WorkerState) :
  read it = ReadDone (pre ++ d :: post) ->
  (dispatch_batch w pre (signalled (stop_during_wait it) s)).2 = None ->
  (handle_message w d).2 = Some e ->
  intake_loop w (it :: rest) s =
    (EvRead :: signal_events (stop_during_wait it) ++
       (dispatch_batch w pre (signalled (stop_during_wait it) s)).1.1 ++
       (handle_message w d).1,
     signalled (stop_requested d)
       (dispatch_batch w pre (signalled (stop_during_wait it) s)).1.2,
     LoopRaised e).
Proof.
  intros Hread Hpre Hfail. simpl. rewrite Hread.
  by rewrite (dispatch_batch_failure pre post d e _ Hpre Hfail).
Qed.

End IntakeDispatch.

Lemma X5_batch_is_sent_in_order_witness :
  List.filter (fun e => negb (is_stop e))
    (dispatch_batch Sample.worker
       [Sample.deliver Sample.fresh_message;
        Sample.deliver Sample.params_message] initial_state).1.1
    = [EvSend Sample.fresh_message; EvSend Sample.params_message]
  ∧ (dispatch_batch Sample.worker
       [Sample.deliver Sample.fresh_message;
        Sample.deliver Sample.params_message] initial_state).2 = None.
Proof.
  exact (X5_batch_is_sent_in_order Sample.worker
           [Sample.deliver Sample.fresh_message;
            Sample.deliver Sample.params_message] initial_state eq_refl).
Defined.

Lemma X6_failure_ends_the_batch_witness :
  intake_loop Sample.worker
    [Sample.quiet_read
       [Sample.deliver Sample.fresh_message;
        Sample.broken_send Sample.params_message;
        Sample.deliver Sample.context_message];
     Sample.quiet_read []] initial_state
  = ([EvRead; EvSend Sample.fresh_message; EvSend Sample.params_message],
     initial_state, LoopRaised (RuntimeError "closed")).
Proof.
  exact (X6_failure_ends_the_batch Sample.worker
           [Sample.deliver Sample.fresh_message]
           [Sample.deliver Sample.context_message]
           (Sample.broken_send Sample.params_message)
           (RuntimeError "closed")
           (Sample.quiet_read
              [Sample.deliver Sample.fresh_message;
               Sample.broken_send Sample.params_message;
               Sample.deliver Sample.context_message])
           [Sample.quiet_read []] initial_state
           eq_refl eq_refl eq_refl).
Defined.

(** ** The tracked tasks and the shutdown sequence *)

(** X8: the [finally] clause of [_shutdown_tasks] on any task list.  On
    an empty list [asyncio.wait] raises [ValueError], which replaces
    the exception with which the body was left.  On a non-empty list
    the clause raises nothing; when the tasks finish in time none is
    cancelled, and after a timeout every task of the list is cancelled
    once, in the order of the list. *)
Theorem X8_shutdown_cancels_each_task_once (w : AsyncWorker)
    (ts : list bg_task) (in_time : bool) (body : option exn)
    (s : WorkerState) :
  ((_shutdown_tasks w ts in_time body s).2 =
     match ts with
     | [] => Some ValueError
     | _ :: _ => body
     end)
  ∧ List.filter is_cancel (_shutdown_tasks w ts in_time body s).1.1 =
      (if in_time then [] else map EvCancel ts)
  ∧ _stop_event (_shutdown_tasks w ts in_time body s).1.2 = true.
Proof.
  unfold _shutdown_tasks.
  assert (Hall : ∀ l, List.filter is_cancel (map EvCancel l) = map EvCancel l).
  { induction l as [|t l IH]; simpl; [done|]. by rewrite IH. }
  destruct ts as [|t ts]; simpl.
  - by destruct in_time.
  - destruct in_time; simpl; [done|].
    rewrite List.filter_app, Hall. simpl. by rewrite app_nil_r.
Qed.

(** X9: [run] tracks the broker's maintenance task, the lease-renewal
    task and one executor for each unit of the configured concurrency,
    each of them once. *)
Theorem X9_run_tracks_every_task_once (w : AsyncWorker) :
  length (run_tasks w) = (2 + _concurrency w)%nat
  ∧ NoDup (run_tasks w)
  ∧ ∀ n, WorkerTask n ∈ run_tasks w <-> (n < _concurrency w)%nat.
Proof.
  unfold run_tasks. split; [|split].
  - simpl. by rewrite length_map, length_seq.
  - simpl. apply NoDup_cons. split.
    { intros [?|Hin]%elem_of_cons; [done|].
      by apply list_elem_of_fmap in Hin as (n & ? & _). }
    apply NoDup_cons. split.
    { intros Hin. by apply list_elem_of_fmap in Hin as (n & ? & _). }
    apply (NoDup_fmap_2_strong WorkerTask); [|apply NoDup_seq].
    intros x y _ _ Heq. by injection Heq.
  - intros n. simpl. rewrite !elem_of_cons, list_elem_of_fmap. split.
    + intros [?|[?|(k & Heq & Hk)]]; try done.
      injection Heq as ->. apply elem_of_seq in Hk. lia.
    + intros Hn. right. right. exists n. split; [done|].
      apply elem_of_seq. lia.
Qed.

(** ** The stop event and the registry across the loops *)

Lemma dispatch_batch_registry (w : AsyncWorker) (batch : list delivery)
    (s : WorkerState) :
  _active_tasks (dispatch_batch w batch s).1.2 = _active_tasks s.
Proof.
  revert s. induction batch as [|d batch IH]; intros s; simpl; [done|].
  assert (Hsig : ∀ b, _active_tasks (signalled b s) = _active_tasks s)
    by (by intros []).
  destruct (handle_message w d) as [tr [e|]]; simpl; [apply Hsig|].
  specialize (IH (signalled (stop_requested d) s)).
  destruct (dispatch_batch w batch _) as [[tr' s2] err']; simpl in *.
  by rewrite IH.
Qed.

Lemma intake_loop_state (w : AsyncWorker) (script : list iteration)
    (s : WorkerState) :
  _stop_event (intake_loop w script s).1.2 =
    _stop_event s || existsb is_stop (intake_trace w script s)
  ∧ _active_tasks (intake_loop w script s).1.2 = _active_tasks s.
Proof.
  unfold intake_trace. revert s.
  induction script as [|it rest IH]; intros s; simpl.
  { by rewrite orb_false_r. }
  assert (Hreg : ∀ b s0, _active_tasks (signalled b s0) = _active_tasks s0)
    by (by intros []).
  destruct (read it) as [|batch|x]; simpl.
  - destruct (_stop_event (signalled (stop_during_wait it) s)) eqn:Hs1;
      simpl; rewrite ?existsb_app, signal_events_stop; simpl;
      rewrite ?orb_false_r, <- ?Hs1, signalled_stop, Hreg; done.
  - pose proof (dispatch_batch_stop w batch
                  (signalled (stop_during_wait it) s)) as Hstop.
    pose proof (dispatch_batch_registry w batch
                  (signalled (stop_during_wait it) s)) as Hkeep.
    destruct (dispatch_batch w batch _) as [[tr s2] err]; simpl in *.
    rewrite Hreg in Hkeep. rewrite signalled_stop in Hstop.
    destruct err as [x|]; simpl.
    { rewrite existsb_app, signal_events_stop, Hstop.
      by rewrite orb_assoc. }
    destruct (_stop_event (signalled (stop_during_sleep it) s2)) eqn:Hs3;
      simpl.
    + rewrite signalled_stop, Hstop, Hreg, !existsb_app, signal_events_stop.
      simpl. rewrite signal_events_stop. split; [|done].
      by rewrite !orb_assoc.
    + destruct (IH (signalled (stop_during_sleep it) s2)) as [IHs IHr].
      destruct (intake_loop w rest _) as [[tr' s4] ex]; simpl in *.
      rewrite IHr, Hreg. split; [|done].
      rewrite IHs, signalled_stop, Hstop.
      rewrite !existsb_app, signal_events_stop. simpl.
      rewrite existsb_app, signal_events_stop.
      by rewrite !orb_assoc.
  - by rewrite signal_events_stop, signalled_stop, Hreg.
Qed.

Section LoopsAndState.

Context {C : Collaborators} (w : AsyncWorker).

Lemma worker_body_stop (m : BrokerTask) (s : WorkerState) :
  _stop_event (worker_body w m s).1.2 = _stop_event s.
Proof.
  unfold worker_body.
  destruct (_tasks w !! task_name (task m)) as [d|]; [|done].
  destruct (ack_context m _) as [tr r].
  pose proof (settle_state w m d r (claim m s)) as Hst.
  destruct (settle w m d r (claim m s)) as [[tr' s2] err]. simpl in *.
  by subst s2.
Qed.

Lemma worker_stop (recv : list BrokerTask) (s : WorkerState) :
  _stop_event (_worker w recv s).1.2 = _stop_event s.
Proof.
  revert s. induction recv as [|m rest IH]; intros s; simpl; [done|].
  pose proof (worker_body_stop m s) as Hm.
  destruct (worker_body w m s) as [[tr s1] [e|]]; simpl in *; [done|].
  specialize (IH s1).
  destruct (_worker w rest s1) as [[tr' s2] err']; simpl in *. congruence.
Qed.

(** X10: the stop event is set by [stop()] alone and is never cleared.
    After the intake loop it is set exactly when it was set before or
    a stop signal arrived during the loop; the intake loop leaves the
    in-flight registry as it is, and an executor leaves the stop event
    as it is. *)
Theorem X10_stop_event_is_never_cleared (script : list iteration)
    (recv : list BrokerTask) (s : WorkerState) :
  _stop_event (intake_loop w script s).1.2 =
    _stop_event s || existsb is_stop (intake_trace w script s)
  ∧ _active_tasks (intake_loop w script s).1.2 = _active_tasks s
  ∧ _stop_event (_worker w recv s).1.2 = _stop_event s.
Proof.
  destruct (intake_loop_state w script s) as [Hstop Hreg].
  split; [done|split; [done|]]. apply worker_stop.
Qed.

End LoopsAndState.

(** ** The executor, over the messages it receives *)

Section ExecutorRuns.

Context {C : Collaborators} (w : AsyncWorker).

(** The registry after one message: the id is gone when the name is
    registered, and stays when the lookup fails. *)
Lemma worker_body_registry (m : BrokerTask) (s : WorkerState) :
  _active_tasks (worker_body w m s).1.2 =
    match _tasks w !! task_name (task m) with
    | Some _ => delete (task_id (task m)) (_active_tasks s)
    | None => <[task_id (task m) := m]> (_active_tasks s)
    end.
Proof.
  unfold worker_body.
  destruct (_tasks w !! task_name (task m)) as [d|]; [|done].
  destruct (ack_context m _) as [tr r].
  pose proof (settle_state w m d r (claim m s)) as Hst.
  destruct (settle w m d r (claim m s)) as [[tr' s2] err]. simpl in *.
  subst s2. simpl. apply delete_insert_eq.
Qed.

Lemma worker_body_normal_exit (m : BrokerTask) (s : WorkerState) :
  (worker_body w m s).2 = None ->
  is_Some (_tasks w !! task_name (task m)).
Proof.
  unfold worker_body.
  destruct (_tasks w !! task_name (task m)) as [d|]; [eauto|done].
Qed.

Lemma worker_frame (recv : list BrokerTask) (s : WorkerState) (key : string) :
  key ∉ ids recv ->
  _active_tasks (_worker w recv s).1.2 !! key = _active_tasks s !! key.
Proof.
  revert s. induction recv as [|m rest IH]; intros s Hkey; simpl; [done|].
  apply not_elem_of_cons in Hkey as [Hne Hrest].
  pose proof (worker_body_registry m s) as Hreg.
  assert (Hone : _active_tasks (worker_body w m s).1.2 !! key
                 = _active_tasks s !! key).
  { rewrite Hreg. destruct (_tasks w !! task_name (task m)).
    - by rewrite lookup_delete_ne.
    - by rewrite lookup_insert_ne. }
  destruct (worker_body w m s) as [[tr s1] [e|]]; simpl in *; [done|].
  specialize (IH s1 Hrest).
  destruct (_worker w rest s1) as [[tr' s2] err']; simpl in *. congruence.
Qed.

(** X11: an executor changes the in-flight registry only under the ids
    of the messages it receives, and when its loop ends without an
    exception (the stream is exhausted) none of these ids is left in
    the registry. *)
Theorem X11_executor_cleans_the_registry (recv : list BrokerTask)
    (s : WorkerState) :
  (∀ key, key ∉ ids recv ->
     _active_tasks (_worker w recv s).1.2 !! key = _active_tasks s !! key)
  ∧ ((_worker w recv s).2 = None ->
     ∀ m, m ∈ recv ->
       _active_tasks (_worker w recv s).1.2 !! task_id (task m) = None).
Proof.
  split; [intros key; apply worker_frame|].
  revert s. induction recv as [|m0 rest IH]; intros s Hnone m Hm.
  { by apply elem_of_nil in Hm. }
  simpl in *.
  pose proof (worker_body_registry m0 s) as Hreg.
  pose proof (worker_body_normal_exit m0 s) as Hknown.
  destruct (worker_body w m0 s) as [[tr s1] [e|]] eqn:Hbody; simpl in *;
    [discriminate|].
  destruct (Hknown eq_refl) as [d Hd]. rewrite Hd in Hreg.
  pose proof (worker_frame rest s1) as Hframe.
  specialize (IH s1).
  destruct (_worker w rest s1) as [[tr' s2] err']; simpl in *.
  destruct (decide (task_id (task m) ∈ ids rest)) as [Hin|Hnin].
  - apply list_elem_of_fmap in Hin as (m' & Heq & Hm'). rewrite Heq.
    by apply IH.
  - rewrite (Hframe _ Hnin), Hreg.
    apply elem_of_cons in Hm as [->|Hm]; [apply lookup_delete_eq|].
    destruct Hnin. apply list_elem_of_fmap. by exists m.
Qed.

Lemma hooks_no_ack (t : TaskRecord) (d : TaskDefinition) (e : exn)
    (hooks : list Extension) :
  List.filter is_ack (run_on_task_exception w t d e hooks).1 = [].
Proof.
  induction hooks as [|x hooks IH]; simpl; [done|].
  destruct (on_task_exception x t d _ e); [done|].
  by destruct (run_on_task_exception w t d e hooks).
Qed.

Lemma completion_no_ack (t : TaskRecord) (d : TaskDefinition) (v : pyvalue)
    (hooks : list Extension) :
  List.filter is_ack (run_on_task_completion w t d v hooks).1 = [].
Proof.
  induction hooks as [|x hooks IH]; simpl; [done|].
  destruct (on_task_completion x t d _ v); [done|].
  by destruct (run_on_task_completion w t d v hooks).
Qed.

Lemma store_no_ack (t : TaskRecord) (d : TaskDefinition) (v : pyvalue) :
  List.filter is_ack (store_and_complete w t d v).1 = [].
Proof.
  unfold store_and_complete. pose proof (completion_no_ack t d v
    (_ext_on_task_completion w)) as Hc.
  destruct (_result_backend w) as [b|]; [|done].
  by destruct (result_backend_set b (task_id t) v).
Qed.

(** X12: an executor acknowledges a message exactly when the call of
    its task returned: once, through the ack context, whatever the
    result backend and the hooks do afterwards; and never when the
    call raised or was cancelled. *)
Theorem X12_ack_follows_the_call (m : BrokerTask) (s : WorkerState)
    (d : TaskDefinition) :
  _tasks w !! task_name (task m) = Some d ->
  List.filter is_ack (worker_body w m s).1.1 =
    match (_call_task_fn w (task m) d).2 with
    | Ok _ => [EvAck m]
    | Raise _ => []
    end.
Proof.
  intros Hd. rewrite (worker_body_registered w m s d Hd). simpl.
  pose proof (call_steps_no_ack w (task m) d) as Hcall.
  destruct (_call_task_fn w (task m) d) as [trc [v|e]] eqn:Hfn; simpl in *.
  - rewrite !List.filter_app, Hcall. simpl.
    pose proof (store_no_ack (task m) d v) as Hstore.
    destruct (store_and_complete w (task m) d v) as [tr err]. simpl in *.
    by rewrite Hstore.
  - rewrite List.filter_app, Hcall. simpl.
    destruct (is_Exception e); [|done].
    pose proof (hooks_no_ack (task m) d e (_ext_on_task_exception w)) as Hh.
    destruct (run_on_task_exception w (task m) d e _) as [tr err].
    simpl in *. by rewrite List.filter_app, Hh.
Qed.

(** X13: when the result backend fails after a successful call, the
    message has already been acknowledged and its id removed from the
    registry; the on-completion hooks do not run, and the exception of
    the backend leaves the executor loop. *)
Theorem X13_backend_failure_after_ack (m : BrokerTask)
    (rest : list BrokerTask) (s : WorkerState) (d : TaskDefinition)
    (v : pyvalue) (backend : nat) (e : exn) :
  _tasks w !! task_name (task m) = Some d ->
  (_call_task_fn w (task m) d).2 = Ok v ->
  _result_backend w = Some backend ->
  result_backend_set backend (task_id (task m)) v = Some e ->
  _worker w (m :: rest) s =
    ([EvInsert (task_id (task m)) m; EvLookup (task_name (task m));
      EvAckEnter m] ++ (_call_task_fn w (task m) d).1 ++
     [EvAck m; EvPop (task_id (task m));
      EvResultSet (task_id (task m)) v],
     release m (claim m s), Some e).
Proof.
  intros Hd Hok Hbackend Hset. simpl.
  rewrite (worker_body_registered w m s d Hd).
  rewrite (ack_context_ok m _ v Hok). simpl.
  unfold store_and_complete. rewrite Hbackend, Hset. simpl.
  by rewrite <- app_assoc.
Qed.

(** X14: without a result backend nothing is stored: after a successful
    call the on-completion hooks run, each once with the returned
    value, and the executor goes on with the next message. *)
Theorem X14_no_backend_no_storage (m : BrokerTask) (s : WorkerState)
    (d : TaskDefinition) (v : pyvalue) :
  _tasks w !! task_name (task m) = Some d ->
  (_call_task_fn w (task m) d).2 = Ok v ->
  _result_backend w = None ->
  (∀ x, x ∈ _ext_on_task_completion w ->
        on_task_completion x (task m) d (_execution_context w) v = None) ->
  List.filter is_outcome (worker_body w m s).1.1 =
    map (fun x => EvOnTaskCompletion x (task m) v) (_ext_on_task_completion w)
  ∧ stored (worker_body w m s).1.1 = ∅
  ∧ (worker_body w m s).2 = None.
Proof.
  intros Hd Hok Hnone Hhooks.
  assert (Hbody : worker_body w m s =
    ([EvInsert (task_id (task m)) m; EvLookup (task_name (task m))] ++
       (EvAckEnter m :: (_call_task_fn w (task m) d).1 ++ [EvAck m]) ++
       EvPop (task_id (task m)) ::
       map (fun x => EvOnTaskCompletion x (task m) v)
         (_ext_on_task_completion w),
     release m (claim m s), None)).
  { rewrite (worker_body_registered w m s d Hd).
    rewrite (ack_context_ok m _ v Hok). simpl.
    unfold store_and_complete. rewrite Hnone.
    by rewrite (run_on_task_completion_return w _ d v _ Hhooks). }
  rewrite Hbody. simpl. split; [|split; [|done]].
  - rewrite !List.filter_app, call_steps_no_outcome. simpl.
    by rewrite filter_outcome_completion_hooks.
  - unfold stored. apply stored_from_other.
    repeat (constructor; [done|]).
    apply Forall_app. split.
    + apply Forall_app. split; [|by repeat constructor].
      eapply Forall_impl; [apply call_task_fn_steps|]. by intros [].
    + constructor; [done|]. apply Forall_map, Forall_forall. done.
Qed.

(** X15: a payload that the serialization layer rejects is a failure of
    that task: the middleware stack is not called, the on-exception
    hooks run with the error of the deserialization, the message is
    not acknowledged, the id leaves the registry, and the executor goes
    on with the next message. *)
Theorem X15_undecodable_payload (m : BrokerTask) (s : WorkerState)
    (d : TaskDefinition) (e : exn) :
  _tasks w !! task_name (task m) = Some d ->
  deserialize_task d (task m) = Raise e ->
  is_Exception e = true ->
  (∀ x, x ∈ _ext_on_task_exception w ->
        on_task_exception x (task m) d (_execution_context w) e = None) ->
  worker_body w m s =
    ([EvInsert (task_id (task m)) m; EvLookup (task_name (task m));
      EvAckEnter m; EvDeserialize (task m)] ++
     map (fun x => EvOnTaskException x (task m) e)
       (_ext_on_task_exception w) ++
     [EvPop (task_id (task m))],
     release m (claim m s), None).
Proof.
  intros Hd Hdes Hexc Hhooks.
  rewrite (worker_body_registered w m s d Hd).
  unfold _call_task_fn. rewrite Hdes. simpl. rewrite Hexc.
  by rewrite (run_on_task_exception_return w _ d e _ Hhooks).
Qed.

End ExecutorRuns.

Lemma X12_ack_follows_the_call_witness :
  List.filter is_ack
    (@worker_body Sample.collaborators Sample.worker Sample.failing_message
       initial_state).1.1 = []
  ∧ List.filter is_ack
      (@worker_body Sample.unwritable_collaborators Sample.worker
         Sample.fresh_message initial_state).1.1
    = [EvAck Sample.fresh_message].
Proof.
  split.
  - exact (@X12_ack_follows_the_call Sample.collaborators Sample.worker
             Sample.failing_message initial_state Sample.failing_task
             eq_refl).
  - exact (@X12_ack_follows_the_call Sample.unwritable_collaborators
             Sample.worker Sample.fresh_message initial_state
             Sample.noop_task eq_refl).
Defined.

Lemma X13_backend_failure_after_ack_witness :
  @_worker Sample.unwritable_collaborators Sample.worker
    [Sample.fresh_message; Sample.params_message] initial_state =
    ([EvInsert "t-1" Sample.fresh_message; EvLookup "test-task";
      EvAckEnter Sample.fresh_message] ++
     [EvDeserialize (task Sample.fresh_message);
      EvCall Sample.noop_task [] ∅] ++
     [EvAck Sample.fresh_message; EvPop "t-1"; EvResultSet "t-1" (VInt 5)],
     release Sample.fresh_message (claim Sample.fresh_message initial_state),
     Some (RuntimeError "backend")).
Proof.
  exact (@X13_backend_failure_after_ack Sample.unwritable_collaborators
           Sample.worker Sample.fresh_message [Sample.params_message]
           initial_state Sample.noop_task (VInt 5) 0%nat
           (RuntimeError "backend") eq_refl eq_refl eq_refl eq_refl).
Defined.

Lemma X14_no_backend_no_storage_witness :
  List.filter is_outcome
    (@worker_body Sample.collaborators Sample.worker_without_backend
       Sample.params_message initial_state).1.1 =
    [EvOnTaskCompletion Sample.on_completion_hook
       (task Sample.params_message) (VInt 1);
     EvOnTaskCompletion Sample.audit_hook
       (task Sample.params_message) (VInt 1)]
  ∧ stored
      (@worker_body Sample.collaborators Sample.worker_without_backend
         Sample.params_message initial_state).1.1 = ∅
  ∧ (@worker_body Sample.collaborators Sample.worker_without_backend
       Sample.params_message initial_state).2 = None.
Proof.
  exact (@X14_no_backend_no_storage Sample.collaborators
           Sample.worker_without_backend Sample.params_message
           initial_state Sample.task_with_params (VInt 1)
           eq_refl eq_refl eq_refl (fun _ _ => eq_refl)).
Defined.

Lemma X15_undecodable_payload_witness :
  @worker_body Sample.undecodable_collaborators Sample.worker
    Sample.params_message initial_state =
    ([EvInsert "t-6" Sample.params_message; EvLookup "task-with-params";
      EvAckEnter Sample.params_message;
      EvDeserialize (task Sample.params_message)] ++
     [EvOnTaskException Sample.on_exception_hook
        (task Sample.params_message) (RuntimeError "decode");
      EvOnTaskException Sample.audit_hook
        (task Sample.params_message) (RuntimeError "decode")] ++
     [EvPop "t-6"],
     release Sample.params_message
       (claim Sample.params_message initial_state), None).
Proof.
  exact (@X15_undecodable_payload Sample.undecodable_collaborators
           Sample.worker Sample.params_message initial_state
           Sample.task_with_params (RuntimeError "decode")
           eq_refl eq_refl eq_refl (fun _ _ => eq_refl)).
Defined.

(** ** Injection, for any tuple of injectable types *)

Lemma inject_outcome (w : AsyncWorker) (deps : list (string * annotation))
    (kwargs : gmap string pyvalue) :
  ((∃ kwargs', (inject w deps kwargs).2 = Ok kwargs')
   ∧ Forall (fun p => p.2 = AnnExecutionContext) deps)
  ∨ ((inject w deps kwargs).2 = Raise ValueError
     ∧ ∃ p, p ∈ deps ∧ p.2 ≠ AnnExecutionContext).
Proof.
  revert kwargs. induction deps as [|[key value] deps IH]; intros kwargs;
    simpl.
  { left. split; [by eexists | constructor]. }
  destruct (decide (value = AnnExecutionContext)) as [->|Hother].
  - specialize (IH (setdefault key (shared_context w) kwargs)).
    destruct (inject w deps _) as [tr r]. simpl in *.
    destruct IH as [[Hok Hall] | [Hraise (p & Hp & Hne)]].
    + left. split; [done|]. by constructor.
    + right. split; [done|]. exists p. split; [there | done].
  - right. split; [done|]. exists (key, value). split; [here | done].
Qed.

(** X16: the loop of lines 208-216 raises [ValueError], and nothing
    else, exactly when [_dependencies_to_inject] selects a parameter
    whose annotation is not [ExecutionContext], that is when the tuple
    of injectable types holds another type that a parameter of the
    task function declares; otherwise it returns keyword arguments. *)
Theorem X16_unknown_injectable_raises (w : AsyncWorker) (function : Function)
    (types : list annotation) (kwargs : gmap string pyvalue) :
  ((inject w (_dependencies_to_inject function types) kwargs).2
     = Raise ValueError
   <-> ∃ key a,
         (key, a) ∈ parameters function ∧ a ∈ types
         ∧ a ≠ AnnExecutionContext)
  ∧ ((∃ kwargs',
        (inject w (_dependencies_to_inject function types) kwargs).2
          = Ok kwargs')
     ∨ (inject w (_dependencies_to_inject function types) kwargs).2
         = Raise ValueError).
Proof.
  assert (Hsel : ∀ key a,
    (key, a) ∈ _dependencies_to_inject function types
    <-> (key, a) ∈ parameters function ∧ a ∈ types).
  { intros key a. unfold _dependencies_to_inject. split.
    - intros [Hin Hty]%list_elem_of_In%List.filter_In.
      split; [by apply list_elem_of_In | by apply bool_decide_eq_true in Hty].
    - intros [Hin Hty]. apply list_elem_of_In, List.filter_In.
      split; [by apply list_elem_of_In | by apply bool_decide_eq_true]. }
  destruct (inject_outcome w (_dependencies_to_inject function types) kwargs)
    as [[[kwargs' Hok] Hall] | [Hraise ([key a] & Hp & Hne)]].
  - split; [|left; by exists kwargs'].
    rewrite Hok. split; [done|].
    intros (key & a & Hin & Hty & Hne). exfalso. apply Hne.
    rewrite Forall_forall in Hall.
    apply (Hall (key, a)). by apply Hsel.
  - split; [|by right].
    split; [|done]. intros _. exists key, a.
    apply Hsel in Hp as [Hin Hty]. done.
Qed.

(** ** The constructor *)

Lemma filter_sublist {A : Type} (P : A -> bool) (l : list A) :
  sublist (List.filter P l) l.
Proof.
  induction l as [|x l IH]; simpl; [constructor|].
  destruct (P x); by constructor.
Qed.

(** X17: [AsyncWorker.__init__] sorts the extensions of the
    configuration by capability.  Each of the three hook lists holds
    the extensions with that capability and no other, in the order of
    the configuration, so that an extension with several capabilities
    is in several lists; and the execution context holds the
    configuration, the registry and the result backend of the
    worker. *)
Theorem X17_init_sorts_extensions (oid : nat) (backend : option nat)
    (tasks : gmap string TaskDefinition) (configuration : Configuration)
    (concurrency : nat) (x : Extension) :
  (x ∈ _ext_on_task_exception
         (AsyncWorker_init oid backend tasks configuration concurrency)
   <-> x ∈ extensions configuration ∧ is_OnTaskException x = true)
  ∧ (x ∈ _ext_on_task_completion
           (AsyncWorker_init oid backend tasks configuration concurrency)
     <-> x ∈ extensions configuration ∧ is_OnTaskCompletion x = true)
  ∧ (x ∈ _ext_on_task_execution
           (AsyncWorker_init oid backend tasks configuration concurrency)
     <-> x ∈ extensions configuration ∧ is_OnTaskExecution x = true)
  ∧ sublist
      (_ext_on_task_exception
         (AsyncWorker_init oid backend tasks configuration concurrency))
      (extensions configuration)
  ∧ sublist
      (_ext_on_task_completion
         (AsyncWorker_init oid backend tasks configuration concurrency))
      (extensions configuration)
  ∧ sublist
      (_ext_on_task_execution
         (AsyncWorker_init oid backend tasks configuration concurrency))
      (extensions configuration)
  ∧ ctx_configuration
      (_execution_context
         (AsyncWorker_init oid backend tasks configuration concurrency))
    = _configuration
        (AsyncWorker_init oid backend tasks configuration concurrency)
  ∧ ctx_tasks
      (_execution_context
         (AsyncWorker_init oid backend tasks configuration concurrency))
    = _tasks (AsyncWorker_init oid backend tasks configuration concurrency)
  ∧ ctx_result_backend
      (_execution_context
         (AsyncWorker_init oid backend tasks configuration concurrency))
    = _result_backend
        (AsyncWorker_init oid backend tasks configuration concurrency).
Proof.
  simpl.
  assert (Hsel : ∀ P : Extension -> bool,
    x ∈ List.filter P (extensions configuration)
    <-> x ∈ extensions configuration ∧ P x = true).
  { intros P. split.
    - intros [Hin HP]%list_elem_of_In%List.filter_In.
      split; [by apply list_elem_of_In | done].
    - intros [Hin HP]. apply list_elem_of_In, List.filter_In.
      split; [by apply list_elem_of_In | done]. }
  do 3 (split; [apply Hsel|]).
  do 3 (split; [apply filter_sublist|]). done.
Qed.

(** ** The registry of an idle pool *)

Section PoolOwnership.

Context {C : Collaborators} (w : AsyncWorker).

Lemma pool_step_owned (a : action) (p p' : pool) :
  owned p ->
  claims_registered w [a] = true ->
  pool_step w a p = Some p' ->
  owned p'.
Proof.
  intros Hown Hreg Hstep. simpl in Hreg. rewrite andb_true_r in Hreg.
  destruct a as [i m|i r]; simpl in Hstep.
  - apply bool_decide_eq_true in Hreg as [d Hd].
    destruct (pool_executors p !! i) as [[| |]|] eqn:Hi; try discriminate.
    rewrite Hd in Hstep. injection Hstep as <-.
    intros key m' Hkey. simpl in *.
    destruct (decide (key = task_id (task m))) as [->|Hne].
    + rewrite lookup_insert_eq in Hkey. injection Hkey as <-.
      split; [done|]. exists i, d.
      apply list_lookup_insert_eq. by eapply lookup_lt_Some.
    + rewrite lookup_insert_ne in Hkey by done.
      destruct (Hown key m' Hkey) as [-> (j & d' & Hj)].
      split; [done|]. exists j, d'.
      rewrite list_lookup_insert_ne; [done|]. intros <-. congruence.
  - destruct (pool_executors p !! i) as [[|m d|]|] eqn:Hi; try discriminate.
    pose proof (settle_state w m d r (pool_state p)) as Hst.
    destruct (settle w m d r (pool_state p)) as [[tr s1] err].
    simpl in Hst. subst s1. injection Hstep as <-.
    intros key m' Hkey. simpl in *.
    destruct (decide (key = task_id (task m))) as [->|Hne].
    { by rewrite lookup_delete_eq in Hkey. }
    rewrite lookup_delete_ne in Hkey by done.
    destruct (Hown key m' Hkey) as [-> (j & d' & Hj)].
    split; [done|]. exists j, d'.
    rewrite list_lookup_insert_ne; [done|]. intros <-. congruence.
Qed.

Lemma pool_run_owned (acts : list action) (p p' : pool) :
  owned p ->
  claims_registered w acts = true ->
  pool_run w acts p = Some p' ->
  owned p'.
Proof.
  revert p. induction acts as [|a acts IH]; intros p Hown Hreg Hrun;
    simpl in *.
  - by injection Hrun as <-.
  - apply andb_true_iff in Hreg as [Ha Hrest].
    destruct (pool_step w a p) as [p1|] eqn:Hstep; [|discriminate].
    eapply IH; [|done..]. eapply pool_step_owned; [done| |done].
    simpl. by rewrite Ha.
Qed.

(** X18: as long as the executors claim only messages with registered
    task names, every entry of the in-flight registry is the message
    of an executor that is executing it, filed under its id; so the
    registry is empty whenever no executor of the pool is executing. *)
Theorem X18_idle_pool_has_empty_registry (acts : list action) (p : pool) :
  claims_registered w acts = true ->
  pool_run w acts (idle_pool w) = Some p ->
  (∀ key m,
     _active_tasks (pool_state p) !! key = Some m ->
     key = task_id (task m)
     ∧ ∃ i d, pool_executors p !! i = Some (Executing m d))
  ∧ ((∀ i m d, pool_executors p !! i ≠ Some (Executing m d)) ->
     _active_tasks (pool_state p) = ∅).
Proof.
  intros Hreg Hrun.
  assert (Hown : owned p).
  { eapply pool_run_owned; [|done..].
    intros key m Hkey. simpl in Hkey. by rewrite lookup_empty in Hkey. }
  split; [done|]. intros Hidle. apply map_eq. intros key.
  rewrite lookup_empty.
  destruct (_active_tasks (pool_state p) !! key) as [m|] eqn:Hkey; [|done].
  destruct (Hown key m Hkey) as [_ (i & d & Hi)]. by destruct (Hidle i m d).
Qed.

End PoolOwnership.

Lemma X18_idle_pool_has_empty_registry_witness :
  (∀ key m,
     (∅ : gmap string BrokerTask) !! key = Some m ->
     key = task_id (task m)
     ∧ ∃ i d, [Receiving; Receiving] !! i = Some (Executing m d))
  ∧ ((∀ i m d, [Receiving; Receiving] !! i ≠ Some (Executing m d)) ->
     (∅ : gmap string BrokerTask) = ∅).
Proof.
  exact (@X18_idle_pool_has_empty_registry Sample.collaborators Sample.worker
           [Claim 0 Sample.fresh_message; Claim 1 Sample.failing_message;
            Finish 0 (Ok VNone); Finish 1 (Raise (RuntimeError "boom"))]
           {| pool_state := initial_state;
              pool_executors := [Receiving; Receiving] |}
           eq_refl eq_refl).
Defined.

(** ** The registry under every interleaving *)

Section Registry.

Context {C : Collaborators} (w : AsyncWorker).






End Registry.



(** ** The utilities *)

(** X19: [extract_tasks] returns a sequence of definitions as it is;
    from a router it returns the registered definitions, one for each
    registered name and no other; so extracting from its own result
    changes nothing. *)
Theorem X19_extract_tasks (tasks : Util.tasks_argument) :
  match tasks with
  | Util.FromRouter router_tasks =>
      (∀ d, d ∈ Util.extract_tasks tasks
            <-> ∃ key, router_tasks !! key = Some d)
      ∧ length (Util.extract_tasks tasks) = size router_tasks
  | Util.FromSequence definitions => Util.extract_tasks tasks = definitions
  end
  ∧ Util.extract_tasks (Util.FromSequence (Util.extract_tasks tasks))
    = Util.extract_tasks tasks.
Proof.
  split; [|done]. destruct tasks as [router_tasks|definitions]; simpl;
    [|done].
  split.
  - intros d. rewrite list_elem_of_fmap. split.
    + intros ([key d'] & -> & Hin). exists key.
      by apply elem_of_map_to_list.
    + intros (key & Hkey). exists (key, d). split; [done|].
      by apply elem_of_map_to_list.
  - by rewrite length_fmap, length_map_to_list.
Qed.

Lemma event_of_construct (id id' : nat) (p : Util.process) :
  Util.event_of id' (Util.ShutdownManager_init id p) =
    if decide (id = id') then Some false else Util.event_of id' p.
Proof.
  unfold Util.event_of, Util.ShutdownManager_init. simpl.
  rewrite lookup_insert. by destruct (decide (id = id')).
Qed.

Lemma event_of_shutdown (id id' : nat) (p : Util.process) :
  Util.event_of id' (Util.shutdown id p) =
    if decide (id = id') then (fun _ => true) <$> Util.event_of id' p
    else Util.event_of id' p.
Proof.
  unfold Util.event_of, Util.shutdown. simpl.
  rewrite lookup_alter. destruct (decide (id = id')) as [->|]; [|done].
  by destruct (Util.managers p !! id').
Qed.

(** No step clears an event: the event of a manager that is set stays
    set, unless a new manager is constructed under its identity. *)
Lemma process_do_keeps_event (st : Util.process_step) (p p' : Util.process)
    (id : nat) :
  Util.process_do st p = Some p' ->
  Util.constructs id st = false ->
  Util.event_of id p = Some true ->
  Util.event_of id p' = Some true.
Proof.
  intros Hdo Hnew Hset.
  destruct st as [id'|id'| |sig]; simpl in *.
  - injection Hdo as <-. apply bool_decide_eq_false in Hnew.
    rewrite event_of_construct. by rewrite decide_False.
  - injection Hdo as <-. rewrite event_of_shutdown, Hset.
    by destruct (decide (id' = id)).
  - by injection Hdo as <-.
  - unfold Util.deliver in Hdo.
    destruct (Util.handler_of sig p) as [[id'|]|]; [| |done];
      injection Hdo as <-; [|done].
    rewrite event_of_shutdown, Hset. by destruct (decide (id' = id)).
Qed.

Lemma process_run_keeps_event (steps : list Util.process_step)
    (p p' : Util.process) (id : nat) :
  Util.process_run steps p = Some p' ->
  existsb (Util.constructs id) steps = false ->
  Util.event_of id p = Some true ->
  Util.event_of id p' = Some true.
Proof.
  revert p. induction steps as [|st steps IH]; intros p Hrun Hnew Hset;
    simpl in *.
  - by injection Hrun as <-.
  - apply orb_false_iff in Hnew as [Hst Hrest].
    destruct (Util.process_do st p) as [p1|] eqn:Hdo; [|done].
    eapply IH; [done..|]. by eapply process_do_keeps_event.
Qed.

(** X20: the handlers of [SIGTERM] and [SIGINT] belong to the process,
    and the last installer has them.  A new [ShutdownManager] starts
    with its event unset and receives both signals; once a later
    manager is constructed, or [AsyncWorker.run] has installed its own
    handlers, a signal no longer sets the event of the earlier manager,
    which only its own [shutdown()] then sets.  No step ever clears an
    event that is set, and a signal other than these two has no
    handler of this code. *)
Theorem X20_signals_reach_the_last_installer (p : Util.process)
    (id1 id2 : nat) (sig : Util.signum) :
  id1 ≠ id2 ->
  sig = Util.SIGTERM ∨ sig = Util.SIGINT ->
  (∃ p',
     Util.process_run [Util.Construct id1; Util.Deliver sig] p = Some p'
     ∧ Util.event_of id1 (Util.ShutdownManager_init id1 p) = Some false
     ∧ Util.event_of id1 p' = Some true
     ∧ Util.stop_set p' = Util.stop_set p
     ∧ ∀ id, id ≠ id1 -> Util.event_of id p' = Util.event_of id p)
  ∧ (∃ p',
       Util.process_run
         [Util.Construct id1; Util.Construct id2; Util.Deliver sig] p
         = Some p'
       ∧ Util.event_of id1 p' = Some false
       ∧ Util.event_of id2 p' = Some true)
  ∧ (∃ p',
       Util.process_run
         [Util.Construct id1; Util.RunWorker; Util.Deliver sig] p = Some p'
       ∧ Util.event_of id1 p' = Some false
       ∧ Util.stop_set p' = true)
  ∧ (∃ p',
       Util.process_run
         [Util.Construct id1; Util.Construct id2; Util.CallShutdown id1] p
         = Some p'
       ∧ Util.event_of id1 p' = Some true
       ∧ Util.event_of id2 p' = Some false)
  ∧ (∀ steps q q' id,
       Util.process_run steps q = Some q' ->
       existsb (Util.constructs id) steps = false ->
       Util.event_of id q = Some true ->
       Util.event_of id q' = Some true)
  ∧ (∀ q, Util.deliver Util.SIGHUP q = None
          ∧ Util.deliver Util.SIGUSR1 q = None).
Proof.
  intros Hne Hsig.
  split; [|split; [|split; [|split; [|split]]]].
  - exists (Util.shutdown id1 (Util.ShutdownManager_init id1 p)).
    split; [by destruct Hsig as [-> | ->]|].
    rewrite event_of_shutdown, !event_of_construct, !decide_True by done.
    split; [done|split; [done|split; [done|]]].
    intros id Hid. rewrite event_of_shutdown, event_of_construct.
    by rewrite !decide_False by done.
  - exists (Util.shutdown id2
              (Util.ShutdownManager_init id2
                 (Util.ShutdownManager_init id1 p))).
    split; [by destruct Hsig as [-> | ->]|].
    rewrite !event_of_shutdown, !event_of_construct.
    destruct (decide (id2 = id1)), (decide (id1 = id1)),
      (decide (id2 = id2)); done.
  - eexists. split; [by destruct Hsig as [-> | ->]|]. simpl.
    split; [|done]. unfold Util.event_of. simpl.
    by rewrite lookup_insert_eq.
  - exists (Util.shutdown id1
              (Util.ShutdownManager_init id2
                 (Util.ShutdownManager_init id1 p))).
    split; [done|].
    rewrite !event_of_shutdown, !event_of_construct.
    destruct (decide (id2 = id1)), (decide (id1 = id2)),
      (decide (id1 = id1)), (decide (id2 = id2)); done.
  - apply process_run_keeps_event.
  - done.
Qed.

Lemma X20_signals_reach_the_last_installer_witness :
  (∃ p',
     Util.process_run [Util.Construct 1; Util.Deliver Util.SIGTERM]
       Util.no_handlers = Some p'
     ∧ Util.event_of 1 (Util.ShutdownManager_init 1 Util.no_handlers)
       = Some false
     ∧ Util.event_of 1 p' = Some true
     ∧ Util.stop_set p' = Util.stop_set Util.no_handlers
     ∧ ∀ id, id ≠ 1%nat ->
         Util.event_of id p' = Util.event_of id Util.no_handlers)
  ∧ (∃ p',
       Util.process_run
         [Util.Construct 1; Util.Construct 2; Util.Deliver Util.SIGTERM]
         Util.no_handlers = Some p'
       ∧ Util.event_of 1 p' = Some false
       ∧ Util.event_of 2 p' = Some true)
  ∧ (∃ p',
       Util.process_run
         [Util.Construct 1; Util.RunWorker; Util.Deliver Util.SIGTERM]
         Util.no_handlers = Some p'
       ∧ Util.event_of 1 p' = Some false
       ∧ Util.stop_set p' = true)
  ∧ (∃ p',
       Util.process_run
         [Util.Construct 1; Util.Construct 2; Util.CallShutdown 1]
         Util.no_handlers = Some p'
       ∧ Util.event_of 1 p' = Some true
       ∧ Util.event_of 2 p' = Some false)
  ∧ (∀ steps q q' id,
       Util.process_run steps q = Some q' ->
       existsb (Util.constructs id) steps = false ->
       Util.event_of id q = Some true ->
       Util.event_of id q' = Some true)
  ∧ (∀ q, Util.deliver Util.SIGHUP q = None
          ∧ Util.deliver Util.SIGUSR1 q = None).
Proof.
  apply (X20_signals_reach_the_last_installer Util.no_handlers 1 2
           Util.SIGTERM); [lia | by left].
Defined.

Lemma wait_no_cancel_call (arrivals : list (list nat))
    (tm : Util.TaskManager) :
  List.filter Util.is_cancel_call (Util.wait_for_completion arrivals tm).1.1
    = [].
Proof.
  revert tm. induction arrivals as [|added rest IH]; intros tm; simpl.
  - by destruct (decide (Util._tasks tm = ∅)).
  - destruct (decide (Util._tasks tm = ∅)); [done|].
    specialize (IH {| Util._tasks :=
      Util._tasks (Util.add added tm) ∖ Util._tasks tm |}).
    by destruct (Util.wait_for_completion rest _) as [[tr tm2] returned].
Qed.

Lemma wait_returns_empty (arrivals : list (list nat))
    (tm : Util.TaskManager) :
  (Util.wait_for_completion arrivals tm).2 = true ->
  Util._tasks (Util.wait_for_completion arrivals tm).1.2 = ∅.
Proof.
  revert tm. induction arrivals as [|added rest IH]; intros tm; simpl.
  - by destruct (decide (Util._tasks tm = ∅)).
  - destruct (decide (Util._tasks tm = ∅)); [done|].
    specialize (IH {| Util._tasks :=
      Util._tasks (Util.add added tm) ∖ Util._tasks tm |}).
    by destruct (Util.wait_for_completion rest _) as [[tr tm2] returned].
Qed.

Lemma wait_on_empty (arrivals : list (list nat)) (tm : Util.TaskManager) :
  Util._tasks tm = ∅ ->
  Util.wait_for_completion arrivals tm = ([], tm, true).
Proof.
  intros Hempty. destruct arrivals; simpl;
    by destruct (decide (Util._tasks tm = ∅)).
Qed.

(** X21: [wait_for_completion] never waits on an empty set of tasks (on
    which [asyncio.wait] raises): an empty manager returns at once
    without waiting.  When the method returns, the manager holds no
    task; and when no task is added meanwhile, one wait on all the
    tasks of the manager is enough. *)
Theorem X21_wait_for_completion (arrivals : list (list nat))
    (tm : Util.TaskManager) :
  existsb Util.is_empty_wait (Util.wait_for_completion arrivals tm).1.1
    = false
  ∧ ((Util.wait_for_completion arrivals tm).2 = true ->
     Util._tasks (Util.wait_for_completion arrivals tm).1.2 = ∅)
  ∧ (Util._tasks tm = ∅ ->
     Util.wait_for_completion arrivals tm = ([], tm, true))
  ∧ (Util._tasks tm ≠ ∅ ->
     Util.wait_for_completion ([] :: arrivals) tm
     = ([Util.TmWait (Util._tasks tm)], Util.TaskManager_init, true)).
Proof.
  split; [|split; [|split]].
  - revert tm. induction arrivals as [|added rest IH]; intros tm; simpl.
    + destruct (decide (Util._tasks tm = ∅)); simpl; [done|].
      by rewrite bool_decide_eq_false_2.
    + destruct (decide (Util._tasks tm = ∅)); [done|].
      specialize (IH {| Util._tasks :=
        Util._tasks (Util.add added tm) ∖ Util._tasks tm |}).
      destruct (Util.wait_for_completion rest _) as [[tr tm2] returned].
      simpl in *. by rewrite bool_decide_eq_false_2.
  - apply wait_returns_empty.
  - apply wait_on_empty.
  - intros Hne.
    change (Util.wait_for_completion ([] :: arrivals) tm) with
      (if decide (Util._tasks tm = ∅) then ([], tm, true)
       else
         let '(tr, tm2, returned) :=
           Util.wait_for_completion arrivals
             {| Util._tasks :=
                  Util._tasks (Util.add [] tm) ∖ Util._tasks tm |} in
         (Util.TmWait (Util._tasks tm) :: tr, tm2, returned)).
    destruct (decide (Util._tasks tm = ∅)); [done|].
    assert (Hdone : Util._tasks (Util.add [] tm) ∖ Util._tasks tm = ∅).
    { unfold Util.add. simpl.
      by rewrite union_empty_r_L, difference_diag_L. }
    rewrite Hdone. by rewrite wait_on_empty.
Qed.

(** X22: [cancel] calls [cancel()] on the tasks that the manager holds
    when it is called, and on no other: a task added while [cancel]
    is waiting is waited for and not cancelled.  When [cancel] returns,
    the manager holds no task. *)
Theorem X22_cancel_reaches_present_tasks (arrivals : list (list nat))
    (tm : Util.TaskManager) :
  List.filter Util.is_cancel_call (Util.cancel arrivals tm).1.1
    = [Util.TmCancel (Util._tasks tm)]
  ∧ head (Util.cancel arrivals tm).1.1 = Some (Util.TmCancel (Util._tasks tm))
  ∧ ((Util.cancel arrivals tm).2 = true ->
     Util._tasks (Util.cancel arrivals tm).1.2 = ∅).
Proof.
  unfold Util.cancel.
  pose proof (wait_no_cancel_call arrivals tm) as Hquiet.
  pose proof (wait_returns_empty arrivals tm) as Hempty.
  destruct (Util.wait_for_completion arrivals tm) as [[tr tm1] returned].
  simpl in *. by rewrite Hquiet.
Qed.
